(** * AncestorTree desktop mode: the query layer over the embedded SQL engine

    A shallow embedding of three TypeScript modules of the repository,

    - [src/app/api/desktop-db/type-coerce.ts]   (module [TypeCoerce]),
    - [src/app/api/desktop-db/query-builder.ts] (module [QueryBuilder]),
    - [src/app/api/desktop-db/rpc-handlers.ts]  (module [RpcHandlers]),

    together with the properties the design document states about them.

    Conventions of the embedding.
    - A JavaScript value is a term of [Js.value]; numbers are the integers
      (what an INTEGER column and a row limit carry), so [NaN], fractions
      and the negative zero are outside the model.  An integer is printed
      with all its digits, as JavaScript prints the integers a number
      holds exactly (those below 2^53 in magnitude): what is proved of a
      printed number is stated within that bound.
    - A string is a sequence of bytes (UTF-8); splitting on [","] and ["."]
      and searching for an ASCII substring agree with the UTF-16 reading.
    - An object is the list of its entries in insertion order; a key bound
      twice reads as its last binding, as in an object literal.  Keys that
      look like array indices (which JavaScript enumerates first) and the
      names inherited from [Object.prototype] are outside the model: the
      tables of columns answer for the tables of an ordinary name, and an
      assignment stores the keys other than [__proto__].  What is proved
      of the coercions as such is stated for those tables and keys
      ([Vocabulary.ordinary_table], [Vocabulary.ordinary_keys]).
    - The engine under the traversal of [RpcHandlers] answers every
      statement; a failure of the engine there, which the source lets
      escape to its caller, is outside the model.
    - What the modules import from outside the repository ([JSON], the
      clock, [crypto.randomUUID], the [sql.js] connection) and the error
      mapper, whose source is not part of the studied files, are the fields
      of the class [QueryBuilder.Host]. *)

From Stdlib Require Import ZArith String Ascii DecimalString.
From stdpp Require Import base decidable option strings list gmap.

#[local] Set Warnings "-register-all,-clear-no-such-hyp".
Local Open Scope string_scope.
Local Open Scope list_scope.

(* ===================================================================== *)
(** * JavaScript values *)
(* ===================================================================== *)

Module Js.

Inductive value : Type :=
| VUndefined
| VNull
| VBool (b : bool)
| VNum (n : Z)
| VStr (s : string)
| VArr (items : list value)
| VObj (fields : list (string * value)).

(** [Record<string, unknown>]: the entries, in insertion order. *)
Abbreviation obj := (list (string * value)).

(** [Boolean(v)], the test behind [if (v)], [!v], [v ? a : b], [a || b]. *)
Definition truthy (v : value) : bool :=
  match v with
  | VUndefined | VNull => false
  | VBool b => b
  | VNum n => negb (n =? 0)%Z
  | VStr s => negb (String.eqb s "")
  | VArr _ | VObj _ => true
  end.

(** [a === b] where one side is a literal of primitive type.  Arrays and
    objects compare by identity, and never equal a literal. *)
Definition strict_eq (a b : value) : bool :=
  match a, b with
  | VUndefined, VUndefined => true
  | VNull, VNull => true
  | VBool x, VBool y => Bool.eqb x y
  | VNum x, VNum y => (x =? y)%Z
  | VStr x, VStr y => String.eqb x y
  | _, _ => false
  end.

(** [o[k]]: the live binding of [k], [None] for [undefined]. *)
Fixpoint obj_get (k : string) (o : obj) : option value :=
  match o with
  | [] => None
  | (k', v) :: rest =>
      match obj_get k rest with
      | Some w => Some w
      | None => if String.eqb k' k then Some v else None
      end
  end.

Definition obj_has (k : string) (o : obj) : bool :=
  existsb (fun e => String.eqb (fst e) k) o.

(** [o[k] = v] for a key other than [__proto__]: an existing key keeps its
    place, a new one goes last.  (Assigning [__proto__] stores no property
    and replaces the prototype of [o].) *)
Definition obj_set (k : string) (v : value) (o : obj) : obj :=
  if obj_has k o
  then map (fun e => if String.eqb (fst e) k then (fst e, v) else e) o
  else o ++ [(k, v)].

(** [o.k] read as a value: a missing property is [undefined]. *)
Definition obj_prop (k : string) (o : obj) : value :=
  default VUndefined (obj_get k o).

Definition Object_keys (o : obj) : list string := map fst o.
Definition Object_values (o : obj) : list value := map snd o.

(** [xs.join(sep)] on strings. *)
Fixpoint join (sep : string) (xs : list string) : string :=
  match xs with
  | [] => ""
  | [x] => x
  | x :: rest => x +:+ sep +:+ join sep rest
  end.

(** The text of [${x}] for an optional string: [undefined] prints as such. *)
Definition tpl (x : option string) : string := default "undefined" x.

(** The double quote, and a name between double quotes. *)
Definition dq : string := String (ascii_of_nat 34) EmptyString.
Definition quoted (name : string) : string := dq +:+ name +:+ dq.

(** [String(n)] for an integer that a number holds exactly, below 2^53 in
    magnitude: all its digits.  (Larger numbers print the shortest digits
    that identify them, in exponent form from 10^21 on.) *)
Definition num_to_string (n : Z) : string :=
  NilZero.string_of_int (Z.to_int n).

(** [s.split(c)] for a one-character separator: never empty. *)
Fixpoint split (c : ascii) (s : string) : list string :=
  match s with
  | EmptyString => [""]
  | String a rest =>
      if Ascii.eqb a c then "" :: split c rest
      else match split c rest with
           | [] => [String a ""]
           | w :: ws => String a w :: ws
           end
  end.

(** [s.startsWith(p)] and [s.includes(p)]. *)
Fixpoint startsWith (p s : string) : bool :=
  match p, s with
  | EmptyString, _ => true
  | String a p', String b s' => Ascii.eqb a b && startsWith p' s'
  | String _ _, EmptyString => false
  end.

Fixpoint includes (p s : string) : bool :=
  startsWith p s ||
  match s with
  | EmptyString => false
  | String _ s' => includes p s'
  end.

(** [s.trim()].  White space and line terminators of ECMAScript, in their
    UTF-8 encodings: one byte (TAB, LF, VT, FF, CR, SP), two bytes (U+00A0)
    or three (U+1680, U+2000..U+200A, U+2028, U+2029, U+202F, U+205F,
    U+3000, U+FEFF). *)
Definition ws1 (a : ascii) : bool :=
  let n := N_of_ascii a in
  ((9 <=? n) && (n <=? 13) || (n =? 32))%N.

Definition ws2 (a b : ascii) : bool :=
  ((N_of_ascii a =? 194) && (N_of_ascii b =? 160))%N.

Definition ws3 (a b c : ascii) : bool :=
  let x := N_of_ascii a in
  let y := N_of_ascii b in
  let z := N_of_ascii c in
  ((x =? 225) && (y =? 154) && (z =? 128)
   || (x =? 226) && (y =? 128)
      && ((128 <=? z) && (z <=? 138) || (z =? 168) || (z =? 169) || (z =? 175))
   || (x =? 226) && (y =? 129) && (z =? 159)
   || (x =? 227) && (y =? 128) && (z =? 128)
   || (x =? 239) && (y =? 187) && (z =? 191))%N.

(** Drops leading white space; with [back] the string is read backwards
    (the bytes of a character arrive last byte first). *)
Fixpoint dropWs (back : bool) (s : string) : string :=
  match s with
  | String a s1 =>
      if ws1 a then dropWs back s1
      else match s1 with
           | String b s2 =>
               if (if back then ws2 b a else ws2 a b) then dropWs back s2
               else match s2 with
                    | String c s3 =>
                        if (if back then ws3 c b a else ws3 a b c)
                        then dropWs back s3 else s
                    | EmptyString => s
                    end
           | EmptyString => s
           end
  | EmptyString => s
  end.

Definition trim (s : string) : string :=
  String.rev (dropWs true (String.rev (dropWs false s))).

End Js.

(* ===================================================================== *)
(** * type-coerce.ts: SQLite and PostgreSQL types *)
(* ===================================================================== *)

Module TypeCoerce.
Import Js.

(** Columns that are BOOLEAN in PostgreSQL but INTEGER 0/1 in SQLite. *)
Definition BOOLEAN_COLUMNS : gmap string (gset string) :=
  list_to_map
    [ ("people", {[ "is_living"; "is_patrilineal" ]});
      ("events", {[ "recurring" ]});
      ("media", {[ "is_primary" ]});
      ("achievements", {[ "is_featured" ]});
      ("clan_articles", {[ "is_featured" ]});
      ("cau_duong_pools", {[ "is_active" ]}) ].

(** Columns that are JSONB in PostgreSQL but TEXT in SQLite. *)
Definition JSON_COLUMNS : gmap string (gset string) :=
  list_to_map [ ("contributions", {[ "changes" ]}) ].

(** [cols?.has(key)], where [cols] is what the table of columns holds
    for a table of an ordinary name: a set, or nothing, and an absent set
    answers [undefined], which is falsy.  (Under a name inherited from
    [Object.prototype] the table of columns holds a member that is no set,
    and the call throws.) *)
Definition has (cols : option (gset string)) (key : string) : bool :=
  match cols with
  | Some s => bool_decide (key ∈ s)
  | None => false
  end.

Definition isBooleanColumn (table column : string) : bool :=
  has (BOOLEAN_COLUMNS !! table) column.

Section WithJSON.

(** [JSON.parse] ([None] when it throws) and [JSON.stringify]. *)
Variable JSON_parse : string -> option value.
Variable JSON_stringify : value -> string.

(** The value [coerceRowFromSqlite] stores under [key]. *)
Definition fromSqlite (boolCols jsonCols : option (gset string))
    (key : string) (v : value) : value :=
  if has boolCols key then
    VBool (strict_eq v (VNum 1) || strict_eq v (VBool true))
  else if has jsonCols key then
    match v with
    | VStr s => match JSON_parse s with
                | Some parsed => parsed
                | None => v
                end
    | _ => v
    end
  else v.

Definition coerceRowFromSqlite (table : string) (row : obj) : obj :=
  let boolCols := BOOLEAN_COLUMNS !! table in
  let jsonCols := JSON_COLUMNS !! table in
  fold_left
    (fun result e => obj_set (fst e) (fromSqlite boolCols jsonCols (fst e) (snd e)) result)
    row [].

(** The value [coerceDataToSqlite] stores under [key]. *)
Definition toSqlite (boolCols jsonCols : option (gset string))
    (key : string) (v : value) : value :=
  if has boolCols key then
    VNum (if truthy v then 1 else 0)
  else if has jsonCols key then
    match v with
    | VArr _ | VObj _ => VStr (JSON_stringify v)
    | _ => v
    end
  else v.

Definition coerceDataToSqlite (table : string) (data : obj) : obj :=
  let boolCols := BOOLEAN_COLUMNS !! table in
  let jsonCols := JSON_COLUMNS !! table in
  fold_left
    (fun result e => obj_set (fst e) (toSqlite boolCols jsonCols (fst e) (snd e)) result)
    data [].

End WithJSON.

End TypeCoerce.

(* ===================================================================== *)
(** * query-builder.ts: the query DSL compiled to SQL and executed *)
(* ===================================================================== *)

Module QueryBuilder.
Import Js.

(** What a [throw] carries: an [Error] with its message, or another value. *)
Inductive thrown : Type :=
| ErrorObj (msg : string)
| Thrown (v : value).

Inductive except (A : Type) : Type :=
| Ok (a : A)
| Throw (t : thrown).
Arguments Ok {A} a.
Arguments Throw {A} t.

(** [{ message: string; code?: string }] *)
Record PgError : Type := { message : string; code : option string }.

(** [interface QueryResult] *)
Record QueryResult : Type := { data : value; error : option PgError }.

(** A bound statement as the [step]/[getAsObject] loop sees it: the rows it
    yields, ended by [step() === false] or by a failing [step]. *)
Inductive cursor : Type :=
| CDone
| CRow (row : obj) (next : cursor)
| CFail (t : thrown).

(** The collaborators of the module.  [World] is everything a call can
    change or observe outside its arguments: the contents behind the
    connection, the clock, the random source. *)
Class Host : Type := {
  World : Type;
  JSON_parse : string -> option value;
  JSON_stringify : value -> string;
  (** [randomUUID()] of [crypto] *)
  randomUUID : World -> string * World;
  (** [new Date().toISOString()] *)
  Date_toISOString : World -> string * World;
  (** [db.run(sql, params)] *)
  db_run : string -> list value -> World -> except unit * World;
  (** [db.prepare(sql)] followed by [stmt.bind(params)] *)
  db_prepare : string -> list value -> World -> except cursor * World;
  (** [notFoundError()] and [sqliteError(err)] of [./error-mapper] *)
  notFoundError : PgError;
  sqliteError : thrown -> PgError;
}.

(** Tables that have an updated_at column. *)
Definition TABLES_WITH_UPDATED_AT : gset string :=
  {[ "people"; "families"; "profiles"; "achievements";
     "clan_articles"; "cau_duong_pools"; "cau_duong_assignments" ]}.

(** [interface Filter]; absent optional fields are [None], an absent
    [value] is [VUndefined]. *)
Record Filter : Type := {
  f_type : string;
  f_column : option string;
  f_value : value;
  f_operator : option string;
  f_condition : option string;
}.

(** [body?: Record<string, unknown> | Record<string, unknown>[]] *)
Inductive Body : Type :=
| One (record : obj)
| Many (records : list obj).

(** [interface QueryPayload]; [single] and [maybeSingle] absent read as
    [false]. *)
Record QueryPayload : Type := {
  table : string;
  method : string;
  columns : option string;
  body : option Body;
  filters : list Filter;
  order : option (list (string * bool));
  limit : option Z;
  single : bool;
  maybeSingle : bool;
}.

(** Truthiness of an optional string ([undefined] and the empty string are
    falsy). *)
Definition truthy_str (x : option string) : bool :=
  match x with
  | Some s => truthy (VStr s)
  | None => false
  end.

(* --------------------------------------------------------------------- *)
(** ** Filter builder *)
(* --------------------------------------------------------------------- *)

(** Coerce boolean values to SQLite INTEGER 0/1 when column is boolean. *)
Definition coerceFilterValue (table column : option string) (v : value) : value :=
  if truthy_str column && truthy_str table
     && TypeCoerce.isBooleanColumn (tpl table) (tpl column)
  then
    if strict_eq v (VBool true) then VNum 1
    else if strict_eq v (VBool false) then VNum 0
    else v
  else v.

(** [interface] of the parts [parseOrCondition] returns. *)
Record OrPart : Type := { or_column : string; or_op : string; or_value : string }.

(** The operator of an operator code; [None] is a missing second segment. *)
Definition or_operator (operator : option string) : string :=
  match operator with
  | Some o =>
      if String.eqb o "eq" then "="
      else if String.eqb o "neq" then "!="
      else if String.eqb o "gt" then ">"
      else if String.eqb o "gte" then ">="
      else if String.eqb o "lt" then "<"
      else if String.eqb o "lte" then "<="
      else "="
  | None => "="
  end.

(** Parse Supabase OR condition string: [col.op.val,col.op.val]. *)
Definition parseOrCondition (condition : string) : list OrPart :=
  let parts := split "," condition in
  map (fun part =>
         let segments := split "." (trim part) in
         let column := hd "" segments in
         let operator := segments !! 1%nat in
         let value := join "." (drop 2 segments) in
         {| or_column := column; or_op := or_operator operator; or_value := value |})
      parts.

(** [v.length] for the value of an [in] filter. *)
Definition length_of (v : value) : except value :=
  match v with
  | VUndefined =>
      Throw (ErrorObj "Cannot read properties of undefined (reading 'length')")
  | VNull =>
      Throw (ErrorObj "Cannot read properties of null (reading 'length')")
  | VArr items => Ok (VNum (Z.of_nat (length items)))
  | VStr s => Ok (VNum (Z.of_nat (String.length s)))
  | VObj fields => Ok (obj_prop "length" fields)
  | VBool _ | VNum _ => Ok VUndefined
  end.

(** One turn of the loop of [buildWhere] over the filters: [acc] holds
    [conditions] and [params]. *)
Definition buildWhereStep (table : option string)
    (acc : list string * list value) (f : Filter)
  : except (list string * list value) :=
  let '(conditions, params) := acc in
  let col := quoted (tpl (f_column f)) in
  if String.eqb (f_type f) "eq" then
    Ok (conditions ++ [col +:+ " = ?"],
        params ++ [coerceFilterValue table (f_column f) (f_value f)])
  else if String.eqb (f_type f) "in" then
    match length_of (f_value f) with
    | Throw t => Throw t
    | Ok len =>
        if strict_eq len (VNum 0) then
          Ok (conditions ++ ["1 = 0"], params)
        else
          match f_value f with
          | VArr values =>
              let placeholders := join ", " (map (fun _ => "?") values) in
              Ok (conditions ++ [col +:+ " IN (" +:+ placeholders +:+ ")"],
                  params ++ map (coerceFilterValue table (f_column f)) values)
          | _ => Throw (ErrorObj "values.map is not a function")
          end
    end
  else if String.eqb (f_type f) "is" then
    if strict_eq (f_value f) VNull
    then Ok (conditions ++ [col +:+ " IS NULL"], params)
    else Ok (conditions, params)
  else if String.eqb (f_type f) "ilike" then
    Ok (conditions ++ ["LOWER(" +:+ col +:+ ") LIKE LOWER(?)"],
        params ++ [f_value f])
  else if String.eqb (f_type f) "not" then
    if bool_decide (f_operator f = Some "is") && strict_eq (f_value f) VNull
    then Ok (conditions ++ [col +:+ " IS NOT NULL"], params)
    else Ok (conditions ++ [col +:+ " != ?"],
             params ++ [coerceFilterValue table (f_column f) (f_value f)])
  else if String.eqb (f_type f) "or" then
    let orCondition := if truthy_str (f_condition f) then tpl (f_condition f) else "" in
    let orParts := parseOrCondition orCondition in
    if (0 <? length orParts)%nat then
      let orClauses :=
      map (fun part => quoted (or_column part) +:+ " " +:+ or_op part +:+ " ?")
          orParts in
      Ok (conditions ++ ["(" +:+ join " OR " orClauses +:+ ")"],
          params ++ map (fun part => VStr (or_value part)) orParts)
    else Ok (conditions, params)
  else Ok (conditions, params).

Fixpoint buildWhereLoop (table : option string)
    (acc : list string * list value) (fs : list Filter)
  : except (list string * list value) :=
  match fs with
  | [] => Ok acc
  | f :: rest =>
      match buildWhereStep table acc f with
      | Ok acc' => buildWhereLoop table acc' rest
      | Throw t => Throw t
      end
  end.

(** Returns [{ clause, params }]. *)
Definition buildWhere (filters : list Filter) (table : option string)
  : except (string * list value) :=
  match buildWhereLoop table ([], []) filters with
  | Ok (conditions, params) =>
      Ok (if (0 <? length conditions)%nat
          then "WHERE " +:+ join " AND " conditions
          else "",
          params)
  | Throw t => Throw t
  end.

(* --------------------------------------------------------------------- *)
(** ** Query executor *)
(* --------------------------------------------------------------------- *)

Section Executor.
Context `{Host}.

(** Computations that may change the world and may throw. *)
Definition M (A : Type) : Type := World -> except A * World.

Definition ret {A} (a : A) : M A := fun w => (Ok a, w).

Definition bind {A B} (m : M A) (k : A -> M B) : M B :=
  fun w =>
    match m w with
    | (Ok a, w') => k a w'
    | (Throw t, w') => (Throw t, w')
    end.

(** A pure step that may throw, and an effect of the host that cannot. *)
Definition lift {A} (e : except A) : M A := fun w => (e, w).
Definition effect {A} (f : World -> A * World) : M A :=
  fun w => (Ok (f w).1, (f w).2).

Notation "'let*' x := m 'in' k" := (bind m (fun x => k))
  (at level 10, x name, m at level 100, k at level 200).
Notation "'let*' ' p := m 'in' k" := (bind m (fun x => match x with p => k end))
  (at level 10, p pattern, m at level 100, k at level 200).

Definition coerceRowFromSqlite : string -> obj -> obj :=
  TypeCoerce.coerceRowFromSqlite JSON_parse.
Definition coerceDataToSqlite : string -> obj -> obj :=
  TypeCoerce.coerceDataToSqlite JSON_stringify.
Definition generateUUID : M string := effect randomUUID.

(** [while (stmt.step()) rows.push(coerceRowFromSqlite(table, row))] *)
Fixpoint stepAll (table : string) (stmt : cursor) : except (list obj) :=
  match stmt with
  | CDone => Ok []
  | CRow row next =>
      match stepAll table next with
      | Ok rows => Ok (coerceRowFromSqlite table row :: rows)
      | Throw t => Throw t
      end
  | CFail t => Throw t
  end.

(** [rows[0]] *)
Definition first (rows : list obj) : value :=
  match rows with
  | row :: _ => VObj row
  | [] => VUndefined
  end.

(** [payload.columns === '*' ? '*' : payload.columns || '*'] *)
Definition selectColumns (columns : option string) : string :=
  if bool_decide (columns = Some "*") then "*"
  else if truthy_str columns then tpl columns else "*".

Definition orderClause (order : option (list (string * bool))) : string :=
  match order with
  | Some (o :: os) =>
      let orderParts :=
        map (fun o : string * bool => quoted o.1 +:+ " " +:+ (if o.2 then "ASC" else "DESC"))
            (o :: os) in
      " ORDER BY " +:+ join ", " orderParts
  | _ => ""
  end.

(** [if (payload.limit) sql += ` LIMIT ${payload.limit}`], for a limit
    that is an integer a number holds exactly. *)
Definition limitClause (limit : option Z) : string :=
  match limit with
  | Some n => if truthy (VNum n) then " LIMIT " +:+ num_to_string n else ""
  | None => ""
  end.

(** The statement [executeSelect] prepares. *)
Definition selectSql (payload : QueryPayload) (clause : string) : string :=
  let sql := "SELECT " +:+ selectColumns (columns payload) +:+ " FROM "
             +:+ quoted (table payload) +:+ " " +:+ clause in
  let sql := sql +:+ orderClause (order payload) in
  sql +:+ limitClause (limit payload).

Definition executeSelect (payload : QueryPayload) : M QueryResult :=
  let* '(clause, params) := lift (buildWhere (filters payload) (Some (table payload))) in
  let* stmt := db_prepare (selectSql payload clause) params in
  let* rows := lift (stepAll (table payload) stmt) in
  if single payload then
    if Nat.eqb (length rows) 0
    then ret {| data := VNull; error := Some notFoundError |}
    else ret {| data := first rows; error := None |}
  else if maybeSingle payload then
    ret {| data := if (0 <? length rows)%nat then first rows else VNull;
           error := None |}
  else ret {| data := VArr (map VObj rows); error := None |}.

(** The record [executeInsert] writes for [coerced]: identifier and
    timestamps filled in. *)
Definition stampInsert (table : string) (coerced : obj) : M obj :=
  let* coerced :=
    (if negb (truthy (obj_prop "id" coerced))
     then let* id := generateUUID in ret (obj_set "id" (VStr id) coerced)
     else ret coerced) in
  let* now := effect Date_toISOString in
  let coerced :=
    if negb (truthy (obj_prop "created_at" coerced))
    then obj_set "created_at" (VStr now) coerced else coerced in
  let coerced :=
    if bool_decide (table ∈ TABLES_WITH_UPDATED_AT)
       && negb (truthy (obj_prop "updated_at" coerced))
    then obj_set "updated_at" (VStr now) coerced else coerced in
  ret coerced.

Definition insertSql (table : string) (coerced : obj) : string :=
  let columns := Object_keys coerced in
  let placeholders := join ", " (map (fun _ => "?") columns) in
  "INSERT INTO " +:+ quoted table +:+ " (" +:+ join ", " (map quoted columns)
  +:+ ") VALUES (" +:+ placeholders +:+ ")".

(** The second half of the body of the loop of [executeInsert]: the
    INSERT itself, and the row read back when a projection was asked. *)
Definition writeRecord (payload : QueryPayload) (coerced : obj)
    (insertedRows : list obj) : M (list obj) :=
  let* _ := db_run (insertSql (table payload) coerced) (Object_values coerced) in
  if truthy_str (columns payload) then
    let selectCols :=
      if bool_decide (columns payload = Some "*") then "*" else tpl (columns payload) in
    let* returnStmt := db_prepare ("SELECT " +:+ selectCols +:+ " FROM "
                              +:+ quoted (table payload) +:+ " WHERE id = ?")
                             [obj_prop "id" coerced] in
    match returnStmt with
    | CRow row _ => ret (insertedRows ++ [coerceRowFromSqlite (table payload) row])
    | CDone => ret insertedRows
    | CFail t => lift (Throw t)
    end
  else ret insertedRows.

(** The body of the loop of [executeInsert] over the records. *)
Definition insertRecord (payload : QueryPayload) (record : obj)
    (insertedRows : list obj) : M (list obj) :=
  let* coerced := stampInsert (table payload) (coerceDataToSqlite (table payload) record) in
  writeRecord payload coerced insertedRows.

Fixpoint insertLoop (payload : QueryPayload) (records : list obj)
    (insertedRows : list obj) : M (list obj) :=
  match records with
  | [] => ret insertedRows
  | record :: rest =>
      let* insertedRows := insertRecord payload record insertedRows in
      insertLoop payload rest insertedRows
  end.

Definition executeInsert (payload : QueryPayload) : M QueryResult :=
  let records :=
    match body payload with
    | Some (Many records) => records
    | Some (One record) => [record]
    | None => [[]]
    end in
  let* insertedRows := insertLoop payload records [] in
  if single payload && (0 <? length insertedRows)%nat
  then ret {| data := first insertedRows; error := None |}
  else ret {| data := if truthy_str (columns payload)
                      then VArr (map VObj insertedRows) else VNull;
              error := None |}.

(** The data of the SET clause: the coerced body, stamped. *)
Definition stampUpdate (table : string) (data : obj) : M obj :=
  if bool_decide (table ∈ TABLES_WITH_UPDATED_AT) then
    let* now := effect Date_toISOString in
    ret (obj_set "updated_at" (VStr now) data)
  else ret data.

Definition updateSql (table : string) (data : obj) (clause : string) : string :=
  let setClauses := map (fun k => quoted k +:+ " = ?") (Object_keys data) in
  "UPDATE " +:+ quoted table +:+ " SET " +:+ join ", " setClauses +:+ " " +:+ clause.

(** The second half of [executeUpdate]: the UPDATE itself, and the rows
    read back when a projection was asked. *)
Definition writeUpdate (payload : QueryPayload) (data : obj) : M QueryResult :=
  let* '(clause, params) := lift (buildWhere (filters payload) (Some (table payload))) in
  let* _ := db_run (updateSql (table payload) data clause) (Object_values data ++ params) in
  if truthy_str (columns payload) then
    let selectCols :=
      if bool_decide (columns payload = Some "*") then "*" else tpl (columns payload) in
    let* stmt := db_prepare ("SELECT " +:+ selectCols +:+ " FROM "
                        +:+ quoted (table payload) +:+ " " +:+ clause) params in
    let* rows := lift (stepAll (table payload) stmt) in
    if single payload then
      ret {| data := if truthy (first rows) then first rows else VNull;
             error := None |}
    else ret {| data := VArr (map VObj rows); error := None |}
  else ret {| data := VNull; error := None |}.

(** [Array.isArray(payload.body) ? payload.body[0] : (payload.body || {})];
    coercing the [undefined] first element of an empty array throws. *)
Definition rawBody (payload : QueryPayload) : except obj :=
  match body payload with
  | Some (Many (record :: _)) => Ok record
  | Some (Many []) => Throw (ErrorObj "Cannot convert undefined or null to object")
  | Some (One record) => Ok record
  | None => Ok []
  end.

Definition executeUpdate (payload : QueryPayload) : M QueryResult :=
  let* rawBody := lift (rawBody payload) in
  let* data := stampUpdate (table payload) (coerceDataToSqlite (table payload) rawBody) in
  writeUpdate payload data.

Definition executeDelete (payload : QueryPayload) : M QueryResult :=
  let* '(clause, params) := lift (buildWhere (filters payload) (Some (table payload))) in
  let* _ := db_run ("DELETE FROM " +:+ quoted (table payload) +:+ " " +:+ clause) params in
  ret {| data := VNull; error := None |}.

(** The [switch] inside the [try] of [executeQuery]. *)
Definition dispatch (payload : QueryPayload) : M QueryResult :=
  if String.eqb (method payload) "select" then executeSelect payload
  else if String.eqb (method payload) "insert" then executeInsert payload
  else if String.eqb (method payload) "update" then executeUpdate payload
  else if String.eqb (method payload) "delete" then executeDelete payload
  else ret {| data := VNull;
              error := Some {| message := "Unknown method: " +:+ method payload;
                               code := None |} |}.

(** [err instanceof Error ? err.message : ''] *)
Definition message_of (err : thrown) : string :=
  match err with
  | ErrorObj msg => msg
  | Thrown _ => ""
  end.

(** The [catch] of [executeQuery]. *)
Definition catch (err : thrown) : QueryResult :=
  let msg := message_of err in
  if includes "UNIQUE constraint failed" msg
  then {| data := VNull; error := Some {| message := msg; code := Some "23505" |} |}
  else {| data := VNull; error := Some (sqliteError err) |}.

Definition executeQuery (payload : QueryPayload) (db : World)
  : QueryResult * World :=
  match dispatch payload db with
  | (Ok result, db') => (result, db')
  | (Throw err, db') => (catch err, db')
  end.

End Executor.

End QueryBuilder.

(* ===================================================================== *)
(** * rpc-handlers.ts: subtree membership over the family graph *)
(* ===================================================================== *)

Module RpcHandlers.

(** The two relations the traversal reads, as lists of rows in the order
    the engine yields them.  Identifiers are text; a family may lack a
    father or a mother (a NULL column, which no parameter equals).  The
    two statements are taken to run without failure. *)
Record FamilyRow : Type :=
  { id : string; father_id : option string; mother_id : option string }.
Record ChildRow : Type := { family_id : string; person_id : string }.
Record Database : Type :=
  { families : list FamilyRow; children : list ChildRow }.

(** The two prepared statements, and what the traversal asks of the
    engine, in order. *)
Inductive statement : Type := familyStmt | childStmt.
Inductive call : Type :=
| Prepare (sql : string)
| Bind (stmt : statement) (params : list string)
| Free (stmt : statement).

#[global] Instance statement_eq_dec : EqDecision statement.
Proof. solve_decision. Defined.

(** The rows of [SELECT id FROM families WHERE father_id = ? OR mother_id = ?]. *)
Definition selectFamilies (db : Database) (p1 p2 : string) : list string :=
  id <$> filter (fun f => father_id f = Some p1 ∨ mother_id f = Some p2) (families db).

(** The rows of [SELECT person_id FROM children WHERE family_id = ?]. *)
Definition selectChildren (db : Database) (familyId : string) : list string :=
  person_id <$> filter (fun c => family_id c = familyId) (children db).

(** How the scan of a family's children ends: [return true], or the next
    family with the queue so far. *)
Inductive scan : Type :=
| Found
| Continue (queue : list string).

(** [while (childStmt.step())] over the rows of one family. *)
Fixpoint scanChildren (targetId : string) (visited : gset string)
    (rows : list string) (queue : list string) : scan :=
  match rows with
  | [] => Continue queue
  | childId :: rest =>
      if bool_decide (childId = targetId) then Found
      else scanChildren targetId visited rest
             (if bool_decide (childId ∈ visited) then queue else queue ++ [childId])
  end.

(** [for (const familyId of familyIds)] *)
Fixpoint scanFamilies (db : Database) (targetId : string) (visited : gset string)
    (familyIds : list string) (queue : list string) (log : list call)
  : scan * list call :=
  match familyIds with
  | [] => (Continue queue, log)
  | familyId :: rest =>
      let log := log ++ [Bind childStmt [familyId]] in
      match scanChildren targetId visited (selectChildren db familyId) queue with
      | Found => (Found, log)
      | Continue queue => scanFamilies db targetId visited rest queue log
      end
  end.

(** [while (queue.length > 0)]: [fuel] bounds the number of turns, [None]
    is a loop cut short by it. *)
Fixpoint loop (fuel : nat) (db : Database) (targetId : string)
    (visited : gset string) (queue : list string) (log : list call)
  : option (bool * list call) :=
  match fuel with
  | O => None
  | S fuel =>
      match queue with
      | [] => Some (false, log)
      | currentId :: queue =>
          if bool_decide (currentId ∈ visited) then
            loop fuel db targetId visited queue log
          else
            let visited := {[currentId]} ∪ visited in
            let log := log ++ [Bind familyStmt [currentId; currentId]] in
            let familyIds := selectFamilies db currentId currentId in
            match scanFamilies db targetId visited familyIds queue log with
            | (Found, log) => Some (true, log)
            | (Continue queue, log) => loop fuel db targetId visited queue log
            end
      end
  end.

(** Check if target_id is in the subtree rooted at root_id.  The result
    comes with the calls made on the connection. *)
Definition isPersonInSubtree (fuel : nat) (db : Database)
    (rootId targetId : string) : option (bool * list call) :=
  if bool_decide (rootId = targetId) then Some (true, [])
  else
    let log :=
      [ Prepare "SELECT id FROM families WHERE father_id = ? OR mother_id = ?";
        Prepare "SELECT person_id FROM children WHERE family_id = ?" ] in
    match loop fuel db targetId ∅ [rootId] log with
    | Some (result, log) => Some (result, log ++ [Free familyStmt; Free childStmt])
    | None => None
    end.

(** [interface RpcResult]: the shape of [QueryResult], which a structural
    type system does not tell apart from it. *)
Abbreviation RpcResult := QueryBuilder.QueryResult.

(** [params.key as string]: the parameters are read as the casts of the
    source type them, a text each; [None] is a missing key. *)
Definition param (key : string) (params : list (string * string)) : option string :=
  match Js.obj_get key (prod_map (fun k => k) Js.VStr <$> params) with
  | Some (Js.VStr s) => Some s
  | _ => None
  end.

(** Dispatch RPC function call.  The traversal it starts runs on an
    engine that answers every statement: the source has no handler around
    it, so that a failure of the engine would escape [handleRpc] as an
    exception and not as a result. *)
Definition handleRpc (fuel : nat) (db : Database) (functionName : string)
    (params : list (string * string)) : option (RpcResult * list call) :=
  if String.eqb functionName "is_person_in_subtree" then
    let rootId := param "root_id" params in
    let targetId := param "target_id" params in
    if negb (QueryBuilder.truthy_str rootId) || negb (QueryBuilder.truthy_str targetId)
    then
      Some ({| QueryBuilder.data := Js.VNull;
               QueryBuilder.error :=
                 Some {| QueryBuilder.message := "Missing root_id or target_id";
                         QueryBuilder.code := None |} |}, [])
    else
      match isPersonInSubtree fuel db (Js.tpl rootId) (Js.tpl targetId) with
      | Some (result, log) =>
          Some ({| QueryBuilder.data := Js.VBool result;
                   QueryBuilder.error := None |}, log)
      | None => None
      end
  else
    Some ({| QueryBuilder.data := Js.VNull;
             QueryBuilder.error :=
               Some {| QueryBuilder.message := "Unknown RPC function: " +:+ functionName;
                       QueryBuilder.code := None |} |}, []).

End RpcHandlers.


(* ===================================================================== *)
(** * clan-config.ts: the clan names read from the environment *)
(* ===================================================================== *)

Module ClanConfig.
Import Js.

(** [process.env.NAME || fallback]: an unset or empty variable gives way. *)
Definition or_else (env : option string) (fallback : string) : string :=
  match env with
  | Some (String a rest) => String a rest
  | _ => fallback
  end.

(** Short clan name; the argument is [NEXT_PUBLIC_CLAN_NAME]. *)
Definition CLAN_NAME (env : option string) : string := or_else env "Họ Đinh".

(** Full clan name with location; the argument is
    [NEXT_PUBLIC_CLAN_FULL_NAME]. *)
Definition CLAN_FULL_NAME (env : option string) : string :=
  or_else env "Họ Đinh Thôn An Thái".

(** [s.slice(n)] for [n] within [s], counted in bytes: used with the
    length of a prefix of [s], where bytes and code units cut at the same
    place. *)
Fixpoint slice (n : nat) (s : string) : string :=
  match n, s with
  | S m, String _ rest => slice m rest
  | _, _ => s
  end.

(** Derived: location subtitle (full name minus short name). *)
Definition CLAN_SUBTITLE (name_env full_env : option string) : string :=
  let name := CLAN_NAME name_env in
  let full := CLAN_FULL_NAME full_env in
  if startsWith name full then trim (slice (String.length name) full) else "".

End ClanConfig.

(* ===================================================================== *)
(** * admin/documents/page.tsx: the size of a file, for display *)
(* ===================================================================== *)

Module Documents.
Import Js.

(** [x.toFixed(0)] for [x = bytes / 1024], and [x.toFixed(1)] for
    [x = bytes / (1024 * 1024)], with [bytes] a positive integer below
    2^53 (the properties of the sizes shown carry that bound).  The division by a power of two is exact, and [toFixed] takes the
    integer n nearest to x (to 10 x), the larger one of two: the quotient
    rounded half up. *)
Definition kilobytes_toFixed0 (bytes : Z) : string :=
  num_to_string ((bytes + 512) / 1024)%Z.

Definition megabytes_toFixed1 (bytes : Z) : string :=
  let n := ((10 * bytes + 524288) / 1048576)%Z in
  num_to_string (n / 10)%Z +:+ "." +:+ num_to_string (n mod 10)%Z.

(** [bytes] is [None] for an absent size. *)
Definition formatFileSize (bytes : option Z) : string :=
  match bytes with
  | None => ""
  | Some bytes =>
      if negb (truthy (VNum bytes)) then ""
      else if (bytes <? 1024)%Z then num_to_string bytes +:+ " B"
      else if (bytes <? 1024 * 1024)%Z then kilobytes_toFixed0 bytes +:+ " KB"
      else megabytes_toFixed1 bytes +:+ " MB"
  end.

End Documents.

(* ===================================================================== *)
(** * A scripted host and a sample family graph, for the examples *)
(* ===================================================================== *)

Module Fixture.
Import Js QueryBuilder RpcHandlers.

(** A connection that answers every statement the same way: with the rows
    of [answer], or by throwing [failure].  The clock and the random source
    count the calls made to them. *)
Record world : Type :=
  { answer : list obj; failure : option thrown; ticks : nat }.

Definition tick (w : world) : world :=
  {| answer := answer w; failure := failure w; ticks := S (ticks w) |}.

Fixpoint cursor_of (rows : list obj) : cursor :=
  match rows with
  | [] => CDone
  | row :: rest => CRow row (cursor_of rest)
  end.

#[global] Instance host : Host := {|
  World := world;
  JSON_parse := fun _ => None;
  JSON_stringify := fun _ => "{}";
  randomUUID := fun w => ("uuid-" +:+ num_to_string (Z.of_nat (ticks w)), tick w);
  Date_toISOString :=
    fun w => ("2026-02-26T00:00:00." +:+ num_to_string (Z.of_nat (ticks w)) +:+ "Z", tick w);
  db_run := fun _ _ w =>
    match failure w with Some t => (Throw t, w) | None => (Ok tt, w) end;
  db_prepare := fun _ _ w =>
    match failure w with
    | Some t => (Throw t, w)
    | None => (Ok (cursor_of (answer w)), w)
    end;
  notFoundError := {| message := "Row not found"; code := Some "PGRST116" |};
  sqliteError := fun t =>
    {| message := match t with ErrorObj m => m | Thrown _ => "Unknown error" end;
       code := None |};
|}.

Definition quiet (rows : list obj) : world :=
  {| answer := rows; failure := None; ticks := 0 |}.
Definition failing (t : thrown) : world :=
  {| answer := []; failure := Some t; ticks := 0 |}.

Definition mkFilter (type : string) (column : option string) (v : value) : Filter :=
  {| f_type := type; f_column := column; f_value := v;
     f_operator := None; f_condition := None |}.

Definition mkPayload (table method : string) : QueryPayload :=
  {| table := table; method := method; columns := None; body := None;
     filters := []; order := None; limit := None;
     single := false; maybeSingle := false |}.

(** Families F1 (father P1, children P2 and P3) and F2 (father P2, child
    P4). *)
Definition threeGenerations : Database :=
  {| families :=
       [ {| id := "F1"; father_id := Some "P1"; mother_id := None |};
         {| id := "F2"; father_id := Some "P2"; mother_id := None |} ];
     children :=
       [ {| family_id := "F1"; person_id := "P2" |};
         {| family_id := "F1"; person_id := "P3" |};
         {| family_id := "F2"; person_id := "P4" |} ] |}.

(** The same with P1 wrongly recorded as a child of F2 (a cycle), and P3
    recorded as a child of both families. *)
Definition cyclic : Database :=
  {| families := families threeGenerations;
     children := children threeGenerations ++
       [ {| family_id := "F2"; person_id := "P1" |};
         {| family_id := "F2"; person_id := "P3" |} ] |}.

(** A connection that accepts [runs_left] statements and then refuses
    every one as a uniqueness violation; it counts what it accepted. *)
Record limited_world : Type :=
  { runs_left : nat; accepted : nat; reads : nat }.

Definition limited_host : Host := {|
  World := limited_world;
  JSON_parse := fun _ => None;
  JSON_stringify := fun _ => "{}";
  randomUUID := fun w =>
    ("uuid-" +:+ num_to_string (Z.of_nat (reads w)),
     {| runs_left := runs_left w; accepted := accepted w; reads := S (reads w) |});
  Date_toISOString := fun w =>
    ("2026-02-26T00:00:00." +:+ num_to_string (Z.of_nat (reads w)) +:+ "Z",
     {| runs_left := runs_left w; accepted := accepted w; reads := S (reads w) |});
  db_run := fun _ _ w =>
    match runs_left w with
    | O => (Throw (ErrorObj "UNIQUE constraint failed: people.id"), w)
    | S n => (Ok tt, {| runs_left := n; accepted := S (accepted w); reads := reads w |})
    end;
  db_prepare := fun _ _ w => (Ok CDone, w);
  notFoundError := {| message := "Row not found"; code := Some "PGRST116" |};
  sqliteError := fun t =>
    {| message := match t with ErrorObj m => m | Thrown _ => "Unknown error" end;
       code := None |};
|}.

(** A connection that keeps the statements it is given, each with its
    parameters, in the order it is given them; every statement succeeds,
    and a prepared one yields the rows of [replies]. *)
Record recording_world : Type :=
  { replies : list obj; statements : list (string * list value); clock : nat }.

Definition record_statement (sql : string) (params : list value)
    (w : recording_world) : recording_world :=
  {| replies := replies w; statements := statements w ++ [(sql, params)];
     clock := clock w |}.

Definition advance (w : recording_world) : recording_world :=
  {| replies := replies w; statements := statements w; clock := S (clock w) |}.

Definition recording_host : Host := {|
  World := recording_world;
  JSON_parse := fun _ => None;
  JSON_stringify := fun _ => "{}";
  randomUUID := fun w => ("uuid-" +:+ num_to_string (Z.of_nat (clock w)), advance w);
  Date_toISOString := fun w =>
    ("2026-02-26T00:00:00." +:+ num_to_string (Z.of_nat (clock w)) +:+ "Z", advance w);
  db_run := fun sql params w => (Ok tt, record_statement sql params w);
  db_prepare := fun sql params w =>
    (Ok (cursor_of (replies w)), record_statement sql params w);
  notFoundError := {| message := "Row not found"; code := Some "PGRST116" |};
  sqliteError := fun t =>
    {| message := match t with ErrorObj m => m | Thrown _ => "Unknown error" end;
       code := None |};
|}.

(** A JSON codec that knows one document, the empty array. *)
Definition parse_empty_array (text : string) : option value :=
  if String.eqb text "[]" then Some (VArr []) else None.
Definition stringify_empty_array (v : value) : string :=
  match v with
  | VArr [] => "[]"
  | _ => "null"
  end.

End Fixture.

(* ===================================================================== *)
(** * Vocabulary of the properties *)
(* ===================================================================== *)

Module Vocabulary.
Import Js QueryBuilder RpcHandlers.

(** [c] occurs in [s]. *)
Fixpoint has_char (c : ascii) (s : string) : bool :=
  match s with
  | EmptyString => false
  | String a rest => Ascii.eqb a c || has_char c rest
  end.

(** A term [column.op.value] of the disjunction grammar, and the terms
    that grammar reads unambiguously: no period in the column or in the
    operator code, no comma anywhere, no white space around. *)
Definition term_text (t : string * string * string) : string :=
  t.1.1 +:+ "." +:+ t.1.2 +:+ "." +:+ t.2.

Definition plain_term (t : string * string * string) : Prop :=
  has_char "." t.1.1 = false /\ has_char "." t.1.2 = false
  /\ has_char "," (term_text t) = false
  /\ trim (term_text t) = term_text t.

Definition term_part (t : string * string * string) : OrPart :=
  {| or_column := t.1.1; or_op := or_operator (Some t.1.2); or_value := t.2 |}.

(** The text of one compiled term of a disjunction. *)
Definition or_clause (part : OrPart) : string :=
  quoted (or_column part) +:+ " " +:+ or_op part +:+ " ?".

(** A request with another row limit. *)
Definition with_limit (payload : QueryPayload) (limit : option Z) : QueryPayload :=
  {| table := table payload; method := method payload;
     columns := columns payload; body := body payload;
     filters := filters payload; order := order payload;
     limit := limit;
     single := single payload; maybeSingle := maybeSingle payload |}.

(** The names a plain object inherits from [Object.prototype].  The two
    tables of columns of the coercions are plain objects: under such a
    name the lookup finds the inherited member, which is no set, and the
    test of a column throws.  [TypeCoerce.has] answers for the tables of
    every other name, and the properties below that depend on the lookup
    are stated for those. *)
Definition prototype_names : list string :=
  [ "constructor"; "hasOwnProperty"; "isPrototypeOf"; "propertyIsEnumerable";
    "toLocaleString"; "toString"; "valueOf"; "__proto__";
    "__defineGetter__"; "__defineSetter__";
    "__lookupGetter__"; "__lookupSetter__" ].

Definition ordinary_table (table : string) : Prop :=
  table ∉ prototype_names.

(** A record every key of which [result[key] = value] stores as a
    property of the result: the key [__proto__] is not stored, it replaces
    the prototype.  [Js.obj_set] stands for the assignment of every other
    key. *)
Definition ordinary_keys (o : obj) : Prop :=
  "__proto__" ∉ Object_keys o.

(** The integers a number holds exactly, which JavaScript prints with all
    their digits: [Js.num_to_string] is their printing. *)
Definition safe_integer (n : Z) : Prop :=
  (Z.abs n < 2 ^ 53)%Z.

(** The records of the body of an insert, as [executeInsert] reads them:
    the array, or the one record, or the empty record of a missing body. *)
Definition body_records (payload : QueryPayload) : list obj :=
  match body payload with
  | Some (Many records) => records
  | Some (One record) => [record]
  | None => [[]]
  end.

(** The update request [payload], received in the world [w], runs in the
    world [w1] the UPDATE statement that sets the columns of [written] to
    its values under the compiled filters: a failure of that run is the
    error of the request; after its success a request with no projection
    answers null, and a request with a projection reads back with the
    same filters and answers the rows, or under [single] the first of
    them or null. *)
Definition update_runs `{Host} (payload : QueryPayload) (written : obj)
    (clause : string) (params : list value) (w w1 : World) : Prop :=
  let sql := updateSql (table payload) written clause in
  let values := Object_values written ++ params in
  (forall err w2,
      db_run sql values w1 = (Throw err, w2) ->
      executeQuery payload w = (catch err, w2))
  /\ (forall w2,
        db_run sql values w1 = (Ok tt, w2) ->
        (truthy_str (columns payload) = false ->
           executeQuery payload w = ({| data := VNull; error := None |}, w2))
        /\ (forall stmt rows w3,
              truthy_str (columns payload) = true ->
              db_prepare ("SELECT "
                          +:+ (if bool_decide (columns payload = Some "*") then "*"
                               else tpl (columns payload))
                          +:+ " FROM " +:+ quoted (table payload) +:+ " " +:+ clause)
                         params w2
              = (Ok stmt, w3) ->
              stepAll (table payload) stmt = Ok rows ->
              executeQuery payload w
              = ({| data := if single payload
                            then match rows with
                                 | row :: _ => VObj row
                                 | [] => VNull
                                 end
                            else VArr (VObj <$> rows);
                    error := None |}, w3))).

(** What a read answers from the rows of its statement: under [single]
    the first row, or the not-found error when there is none; under
    [maybeSingle] the first row or null; otherwise all the rows. *)
Definition select_answer `{Host} (payload : QueryPayload) (rows : list obj)
  : QueryResult :=
  if single payload then
    match rows with
    | [] => {| data := VNull; error := Some notFoundError |}
    | row :: _ => {| data := VObj row; error := None |}
    end
  else if maybeSingle payload then
    {| data := match rows with row :: _ => VObj row | [] => VNull end;
       error := None |}
  else {| data := VArr (VObj <$> rows); error := None |}.

(** The uniform result: data with no error, or an error with null data. *)
Definition uniform (r : QueryResult) : Prop :=
  error r = None \/ (data r = VNull /\ exists e, error r = Some e).

(** [child] is listed as a child of a family of which [parent] is the
    father or the mother. *)
Definition parent_child (db : Database) (parent child : string) : Prop :=
  exists f c,
    f ∈ families db /\ c ∈ children db
    /\ (father_id f = Some parent \/ mother_id f = Some parent)
    /\ family_id c = id f /\ person_id c = child.

(** [target] is reached from [root] through a chain of one or more family
    records. *)
Definition descendant (db : Database) (root target : string) : Prop :=
  tc (parent_child db) root target.

(** The persons whose families were asked for, in order: the parameter of
    each [familyStmt.bind]. *)
Definition expanded (log : list call) : list string :=
  omap (fun c => match c with
                 | Bind familyStmt (p :: _) => Some p
                 | _ => None
                 end) log.

(** What holds at the head of the loop of the traversal: the persons seen
    are reached from the root; the root is seen; the children of a visited
    person are not the target, and are seen. *)
Definition invariant (db : Database) (root target : string)
    (visited : gset string) (queue : list string) : Prop :=
  (forall x, x ∈ visited \/ x ∈ queue -> rtc (parent_child db) root x)
  /\ (root ∈ visited \/ root ∈ queue)
  /\ (forall p c, p ∈ visited -> parent_child db p c ->
                  c <> target /\ (c ∈ visited \/ c ∈ queue)).

(** The persons the traversal can meet: the root and the listed children. *)
Definition universe (db : Database) (root : string) : gset string :=
  {[root]} ∪ list_to_set (person_id <$> children db).

(** The number of occurrences of [c] in [s]. *)
Fixpoint count_char (c : ascii) (s : string) : nat :=
  match s with
  | EmptyString => 0
  | String a rest => (if Ascii.eqb a c then 1 else 0) + count_char c rest
  end.

(** A filter whose column names hold no question mark: the column of the
    filter, or the columns of the terms of a disjunction. *)
Definition plain_names (f : Filter) : Prop :=
  if String.eqb (f_type f) "or"
  then Forall (fun part => has_char "?" (or_column part) = false)
              (parseOrCondition (default "" (f_condition f)))
  else has_char "?" (tpl (f_column f)) = false.

(** A filter that [buildWhere] passes over: a test [is] against something
    other than null, or a type it does not know. *)
Definition passed_over (f : Filter) : Prop :=
  (f_type f = "is" /\ strict_eq (f_value f) VNull = false)
  \/ f_type f ∉ ["eq"; "in"; "is"; "ilike"; "not"; "or"].

(** The clause [buildWhere] returns for its conditions. *)
Definition where_clause (conditions : list string) : string :=
  if (0 <? length conditions)%nat
  then "WHERE " +:+ join " AND " conditions
  else "".

(** The rows a statement yields before it ends, and the failure it ends
    with, if any. *)
Fixpoint cursor_rows (stmt : cursor) : list obj :=
  match stmt with
  | CRow row next => row :: cursor_rows next
  | CDone | CFail _ => []
  end.

Fixpoint cursor_failure (stmt : cursor) : option thrown :=
  match stmt with
  | CRow _ next => cursor_failure next
  | CDone => None
  | CFail t => Some t
  end.

(** The calls that bind a statement. *)
Definition is_bind (c : call) : Prop :=
  match c with
  | Bind _ _ => True
  | _ => False
  end.

End Vocabulary.

(* ===================================================================== *)
(** * Properties of the type coercion layer *)
(* ===================================================================== *)

Module CoerceProps.
Import Js TypeCoerce Vocabulary.

Lemma obj_get_app_one k k' v o :
  obj_get k (o ++ [(k', v)]) = if String.eqb k' k then Some v else obj_get k o.
Proof.
  induction o as [|[a x] r IH]; simpl.
  - reflexivity.
  - rewrite IH. destruct (String.eqb k' k); reflexivity.
Qed.

Lemma obj_get_absent k o : obj_has k o = false -> obj_get k o = None.
Proof.
  unfold obj_has. induction o as [|[a x] r IH]; simpl; [reflexivity|].
  intros [Ha Hr]%orb_false_iff. rewrite (IH Hr), Ha. reflexivity.
Qed.

Lemma obj_has_overwrite k k' v o :
  obj_has k (map (fun e => if String.eqb e.1 k' then (e.1, v) else e) o) = obj_has k o.
Proof.
  unfold obj_has. induction o as [|[a x] r IH]; simpl; [reflexivity|].
  rewrite IH. destruct (String.eqb a k'); reflexivity.
Qed.

Lemma obj_get_overwrite_same k v o :
  obj_has k o = true ->
  obj_get k (map (fun e => if String.eqb e.1 k then (e.1, v) else e) o) = Some v.
Proof.
  induction o as [|[a x] r IH]; simpl; [discriminate|].
  intros Hk. destruct (obj_has k r) eqn:Hr.
  - rewrite (IH eq_refl). destruct (String.eqb a k); reflexivity.
  - rewrite obj_get_absent by (rewrite obj_has_overwrite; exact Hr).
    rewrite orb_false_r in Hk. rewrite Hk. simpl. rewrite Hk. reflexivity.
Qed.

Lemma obj_get_overwrite_other k k' v o :
  String.eqb k' k = false ->
  obj_get k (map (fun e => if String.eqb e.1 k' then (e.1, v) else e) o) = obj_get k o.
Proof.
  intros Hne. induction o as [|[a x] r IH]; simpl; [reflexivity|].
  rewrite IH. destruct (String.eqb a k') eqn:Ha; simpl;
    destruct (obj_get k r); try reflexivity.
  apply String.eqb_eq in Ha. subst a. rewrite Hne. reflexivity.
Qed.

(** Reading after an assignment. *)
Lemma obj_get_set k k' v o :
  obj_get k (obj_set k' v o) = if String.eqb k' k then Some v else obj_get k o.
Proof.
  unfold obj_set. destruct (obj_has k' o) eqn:Hhas.
  - destruct (String.eqb k' k) eqn:Hk.
    + apply String.eqb_eq in Hk. subst k'. apply obj_get_overwrite_same, Hhas.
    + apply obj_get_overwrite_other, Hk.
  - apply obj_get_app_one.
Qed.

(** A loop that assigns [f key value] for every entry: each key then reads
    as [f] of what it read before. *)
Lemma obj_get_fold (f : string -> value -> value) k (row acc : obj) :
  obj_get k (fold_left (fun result e => obj_set e.1 (f e.1 e.2) result) row acc)
  = match obj_get k row with
    | Some v => Some (f k v)
    | None => obj_get k acc
    end.
Proof.
  revert acc. induction row as [|[a x] r IH]; intros acc; simpl; [reflexivity|].
  rewrite IH. destruct (obj_get k r); [reflexivity|].
  rewrite obj_get_set. destruct (String.eqb a k) eqn:Ha; [|reflexivity].
  apply String.eqb_eq in Ha. subst a. reflexivity.
Qed.

Section WithJSON.
Variable JSON_parse : string -> option value.
Variable JSON_stringify : value -> string.

Lemma coerceRowFromSqlite_get table k row :
  obj_get k (coerceRowFromSqlite JSON_parse table row)
  = fromSqlite JSON_parse (BOOLEAN_COLUMNS !! table) (JSON_COLUMNS !! table) k
      <$> obj_get k row.
Proof.
  unfold coerceRowFromSqlite. rewrite obj_get_fold.
  destruct (obj_get k row); reflexivity.
Qed.

Lemma coerceDataToSqlite_get table k data :
  obj_get k (coerceDataToSqlite JSON_stringify table data)
  = toSqlite JSON_stringify (BOOLEAN_COLUMNS !! table) (JSON_COLUMNS !! table) k
      <$> obj_get k data.
Proof.
  unfold coerceDataToSqlite. rewrite obj_get_fold.
  destruct (obj_get k data); reflexivity.
Qed.

(** Whatever a boolean column holds, the logical form of its storage
    form is the boolean of its truthiness. *)
Lemma boolean_logical_of_storage table column data v :
  isBooleanColumn table column = true ->
  obj_get column data = Some v ->
  obj_get column
    (coerceRowFromSqlite JSON_parse table (coerceDataToSqlite JSON_stringify table data))
  = Some (VBool (truthy v)).
Proof.
  unfold isBooleanColumn. intros Hb Hv.
  rewrite coerceRowFromSqlite_get, coerceDataToSqlite_get, Hv. simpl.
  unfold fromSqlite, toSqlite. rewrite Hb.
  destruct (truthy v); reflexivity.
Qed.

(** Whatever a boolean column holds, the storage form of its logical
    form is 1 when it held 1 or [true], and 0 otherwise. *)
Lemma boolean_storage_of_logical table column row v :
  isBooleanColumn table column = true ->
  obj_get column row = Some v ->
  obj_get column
    (coerceDataToSqlite JSON_stringify table (coerceRowFromSqlite JSON_parse table row))
  = Some (VNum (if strict_eq v (VNum 1) || strict_eq v (VBool true) then 1 else 0)).
Proof.
  unfold isBooleanColumn. intros Hb Hv.
  rewrite coerceDataToSqlite_get, coerceRowFromSqlite_get, Hv. simpl.
  unfold fromSqlite, toSqlite. rewrite Hb. reflexivity.
Qed.

End WithJSON.

(** C1, as the code has it.  For a column declared boolean for its table:
    a row whose column holds the storage integer 0 or 1 (or lacks the
    column) is unchanged at that column by [coerceRowFromSqlite] followed by
    [coerceDataToSqlite]; and data whose column holds a boolean reads the
    same boolean at that column after [coerceDataToSqlite] followed by
    [coerceRowFromSqlite]. *)
Theorem boolean_column_roundtrip
    (JSON_parse : string -> option value) (JSON_stringify : value -> string)
    (table column : string) :
  isBooleanColumn table column = true ->
  (forall row,
      obj_get column row = None \/ obj_get column row = Some (VNum 0)
      \/ obj_get column row = Some (VNum 1) ->
      obj_get column
        (coerceDataToSqlite JSON_stringify table (coerceRowFromSqlite JSON_parse table row))
      = obj_get column row)
  /\ (forall data b,
      obj_get column data = Some (VBool b) ->
      obj_get column
        (coerceRowFromSqlite JSON_parse table (coerceDataToSqlite JSON_stringify table data))
      = Some (VBool b)).
Proof.
  intros Hb. split.
  - intros row [Hv|[Hv|Hv]].
    + rewrite coerceDataToSqlite_get, coerceRowFromSqlite_get, Hv. reflexivity.
    + rewrite (boolean_storage_of_logical _ _ _ _ _ _ Hb Hv), Hv. reflexivity.
    + rewrite (boolean_storage_of_logical _ _ _ _ _ _ Hb Hv), Hv. reflexivity.
  - intros data b Hv.
    rewrite (boolean_logical_of_storage _ _ _ _ _ _ Hb Hv). reflexivity.
Qed.

Lemma boolean_column_roundtrip_witness :
  obj_get "is_living"
    (coerceDataToSqlite (fun _ => "{}") "people"
       (coerceRowFromSqlite (fun _ => None) "people"
          [("id", VStr "p1"); ("is_living", VNum 1)]))
  = Some (VNum 1)
  /\ obj_get "is_featured"
       (coerceRowFromSqlite (fun _ => None) "achievements"
          (coerceDataToSqlite (fun _ => "{}") "achievements"
             [("is_featured", VBool false); ("title", VStr "t")]))
     = Some (VBool false).
Proof.
  split.
  - apply (boolean_column_roundtrip (fun _ => None) (fun _ => "{}") "people" "is_living").
    + vm_compute. reflexivity.
    + right. right. vm_compute. reflexivity.
  - apply (boolean_column_roundtrip (fun _ => None) (fun _ => "{}")
             "achievements" "is_featured").
    + vm_compute. reflexivity.
    + vm_compute. reflexivity.
Defined.

(** C1 as stated fails: a NULL in a boolean column comes back as 0. *)
Lemma boolean_column_roundtrip_counterexample :
  exists row : obj,
    isBooleanColumn "people" "is_patrilineal" = true
    /\ row = [("id", VStr "p1"); ("is_patrilineal", VNull)]
    /\ forall parse stringify,
        obj_get "is_patrilineal"
          (coerceDataToSqlite stringify "people" (coerceRowFromSqlite parse "people" row))
        = Some (VNum 0)
        /\ obj_get "is_patrilineal" row = Some VNull
        /\ Some (VNum 0) <> Some VNull.
Proof.
  eexists. split; [vm_compute; reflexivity|]. split; [reflexivity|].
  intros parse stringify. split; [|split].
  - vm_compute. reflexivity.
  - reflexivity.
  - discriminate.
Qed.

(* --------------------------------------------------------------------- *)
(** ** Further properties of the two coercions *)
(* --------------------------------------------------------------------- *)

Lemma obj_has_keys k (o : obj) : obj_has k o = false <-> k ∉ Object_keys o.
Proof.
  unfold obj_has, Object_keys. induction o as [|[a x] r IH]; simpl.
  - split; [intros _; apply not_elem_of_nil|reflexivity].
  - rewrite orb_false_iff, IH, not_elem_of_cons.
    destruct (String.eqb_spec a k); split; intros []; split; congruence.
Qed.

(** The loop of the two coercions, on an object whose keys are pairwise
    distinct: entry by entry, in place. *)
Lemma fold_set_distinct (f : string -> value -> value) (row acc : obj) :
  NoDup (Object_keys acc ++ Object_keys row) ->
  fold_left (fun result e => obj_set e.1 (f e.1 e.2) result) row acc
  = acc ++ map (fun e => (e.1, f e.1 e.2)) row.
Proof.
  revert acc. induction row as [|[a x] r IH]; intros acc Hnd; simpl.
  - symmetry. apply app_nil_r.
  - apply NoDup_app in Hnd as (Hacc & Hdisj & Hrow).
    apply NoDup_cons in Hrow as [Ha Hr].
    assert (Hfresh : obj_has a acc = false).
    { apply obj_has_keys. intros Hin. apply (Hdisj a Hin), elem_of_cons. auto. }
    unfold obj_set at 2. rewrite Hfresh. rewrite IH.
    + rewrite <- app_assoc. reflexivity.
    + unfold Object_keys in *. rewrite fmap_app. simpl.
      rewrite <- app_assoc. simpl. apply NoDup_app. split; [exact Hacc|]. split.
      * intros k Hk. exact (Hdisj k Hk).
      * apply NoDup_cons. auto.
Qed.

Lemma toSqlite_idempotent stringify (boolCols jsonCols : option (gset string)) k v :
  toSqlite stringify boolCols jsonCols k (toSqlite stringify boolCols jsonCols k v)
  = toSqlite stringify boolCols jsonCols k v.
Proof.
  unfold toSqlite. destruct (has boolCols k).
  - destruct (truthy v); reflexivity.
  - destruct (has jsonCols k); [|reflexivity]. destruct v; reflexivity.
Qed.

(** X1.  For a table of an ordinary name, and on an object whose keys are
    pairwise distinct with no key [__proto__] among them, the two
    coercions keep the keys, in their order: no column is added, dropped
    or moved.  (A key [__proto__] is not kept: assigning it replaces the
    prototype of the result.) *)
Theorem coercions_keep_the_keys
    (JSON_parse : string -> option value) (JSON_stringify : value -> string)
    (table : string) (o : obj) :
  ordinary_table table ->
  ordinary_keys o ->
  NoDup (Object_keys o) ->
  Object_keys (coerceRowFromSqlite JSON_parse table o) = Object_keys o
  /\ Object_keys (coerceDataToSqlite JSON_stringify table o) = Object_keys o.
Proof.
  intros _ _ Hnd. unfold coerceRowFromSqlite, coerceDataToSqlite.
  rewrite !fold_set_distinct by exact Hnd. simpl. unfold Object_keys.
  rewrite <- !list_fmap_compose. split; apply list_fmap_ext; intros ? [? ?] _; reflexivity.
Qed.

Lemma coercions_keep_the_keys_witness :
  Object_keys
    (coerceRowFromSqlite (fun _ => None) "people"
       [("id", VStr "p1"); ("is_living", VNum 0); ("name", VNull)])
  = ["id"; "is_living"; "name"]
  /\ Object_keys
       (coerceDataToSqlite (fun _ => "{}") "people"
          [("id", VStr "p1"); ("is_living", VNum 0); ("name", VNull)])
     = ["id"; "is_living"; "name"].
Proof.
  apply (coercions_keep_the_keys (fun _ => None) (fun _ => "{}") "people"
           [("id", VStr "p1"); ("is_living", VNum 0); ("name", VNull)]);
    apply (bool_decide_unpack _); vm_compute; exact I.
Defined.

(** X2.  For a table of an ordinary name and an object with no key
    [__proto__], a column that the table declares neither boolean nor
    document reads the same before and after either coercion; so does
    every column of such a table with no declaration. *)
Theorem undeclared_column_passes_through
    (JSON_parse : string -> option value) (JSON_stringify : value -> string)
    (table column : string) (o : obj) :
  ordinary_table table ->
  ordinary_keys o ->
  isBooleanColumn table column = false ->
  has (JSON_COLUMNS !! table) column = false ->
  obj_get column (coerceRowFromSqlite JSON_parse table o) = obj_get column o
  /\ obj_get column (coerceDataToSqlite JSON_stringify table o) = obj_get column o.
Proof.
  unfold isBooleanColumn. intros _ _ Hb Hj.
  rewrite coerceRowFromSqlite_get, coerceDataToSqlite_get.
  unfold fromSqlite, toSqlite. rewrite Hb, Hj.
  destruct (obj_get column o); split; reflexivity.
Qed.

Lemma undeclared_column_passes_through_witness :
  obj_get "is_living"
    (coerceRowFromSqlite (fun _ => None) "families" [("is_living", VNum 1)])
  = Some (VNum 1)
  /\ obj_get "name"
       (coerceDataToSqlite (fun _ => "{}") "people" [("name", VBool true)])
     = Some (VBool true).
Proof.
  split.
  - apply (undeclared_column_passes_through (fun _ => None) (fun _ => "{}")
             "families" "is_living" [("is_living", VNum 1)]);
      first [reflexivity | apply (bool_decide_unpack _); vm_compute; exact I].
  - apply (undeclared_column_passes_through (fun _ => None) (fun _ => "{}")
             "people" "name" [("name", VBool true)]);
      first [reflexivity | apply (bool_decide_unpack _); vm_compute; exact I].
Defined.

(** X3.  Coercing to the storage form twice is coercing once: every column
    reads the same after the second [coerceDataToSqlite] as after the
    first. *)
Theorem coerceDataToSqlite_idempotent
    (JSON_stringify : value -> string) (table column : string) (data : obj) :
  obj_get column
    (coerceDataToSqlite JSON_stringify table (coerceDataToSqlite JSON_stringify table data))
  = obj_get column (coerceDataToSqlite JSON_stringify table data).
Proof.
  rewrite !coerceDataToSqlite_get. destruct (obj_get column data); simpl; [|reflexivity].
  rewrite toSqlite_idempotent. reflexivity.
Qed.

(** X4.  Whatever the input holds, a boolean column that is present holds
    0 or 1 in the storage form and a boolean in the logical form. *)
Theorem boolean_column_ranges
    (JSON_parse : string -> option value) (JSON_stringify : value -> string)
    (table column : string) (o : obj) :
  isBooleanColumn table column = true ->
  (obj_get column (coerceDataToSqlite JSON_stringify table o) = None
   \/ obj_get column (coerceDataToSqlite JSON_stringify table o) = Some (VNum 0)
   \/ obj_get column (coerceDataToSqlite JSON_stringify table o) = Some (VNum 1))
  /\ (obj_get column (coerceRowFromSqlite JSON_parse table o) = None
      \/ exists b, obj_get column (coerceRowFromSqlite JSON_parse table o)
                   = Some (VBool b)).
Proof.
  unfold isBooleanColumn. intros Hb.
  rewrite coerceRowFromSqlite_get, coerceDataToSqlite_get.
  unfold fromSqlite, toSqlite. rewrite Hb.
  destruct (obj_get column o) as [x|]; simpl; [|auto].
  split; [|eauto]. destruct (truthy x); auto.
Qed.

Lemma boolean_column_ranges_witness :
  (obj_get "is_primary"
     (coerceDataToSqlite (fun _ => "{}") "media" [("is_primary", VStr "yes")]) = None
   \/ obj_get "is_primary"
        (coerceDataToSqlite (fun _ => "{}") "media" [("is_primary", VStr "yes")])
      = Some (VNum 0)
   \/ obj_get "is_primary"
        (coerceDataToSqlite (fun _ => "{}") "media" [("is_primary", VStr "yes")])
      = Some (VNum 1))
  /\ (obj_get "is_primary"
        (coerceRowFromSqlite (fun _ => None) "media" [("is_primary", VStr "yes")]) = None
      \/ exists b,
          obj_get "is_primary"
            (coerceRowFromSqlite (fun _ => None) "media" [("is_primary", VStr "yes")])
          = Some (VBool b)).
Proof.
  apply (boolean_column_ranges (fun _ => None) (fun _ => "{}") "media" "is_primary"
           [("is_primary", VStr "yes")]).
  vm_compute. reflexivity.
Defined.

(** X5.  A document column round trip: when [JSON.parse] reads back what
    [JSON.stringify] wrote for an object or an array, the column holds
    that value again after [coerceDataToSqlite] and [coerceRowFromSqlite],
    and holds its text in between. *)
Theorem document_column_roundtrip
    (JSON_parse : string -> option value) (JSON_stringify : value -> string)
    (table column : string) (data : obj) (v : value) :
  has (JSON_COLUMNS !! table) column = true ->
  isBooleanColumn table column = false ->
  obj_get column data = Some v ->
  (exists items, v = VArr items) \/ (exists fields, v = VObj fields) ->
  JSON_parse (JSON_stringify v) = Some v ->
  obj_get column (coerceDataToSqlite JSON_stringify table data)
  = Some (VStr (JSON_stringify v))
  /\ obj_get column
       (coerceRowFromSqlite JSON_parse table (coerceDataToSqlite JSON_stringify table data))
     = Some v.
Proof.
  unfold isBooleanColumn. intros Hj Hb Hv Hshape Hcodec.
  rewrite coerceRowFromSqlite_get, !coerceDataToSqlite_get, Hv. simpl.
  unfold fromSqlite, toSqlite. rewrite Hb, Hj.
  destruct Hshape as [[items ->]|[fields ->]]; rewrite Hcodec; split; reflexivity.
Qed.

Lemma document_column_roundtrip_witness :
  obj_get "changes"
    (coerceDataToSqlite Fixture.stringify_empty_array "contributions"
       [("id", VStr "c1"); ("changes", VArr [])])
  = Some (VStr "[]")
  /\ obj_get "changes"
       (coerceRowFromSqlite Fixture.parse_empty_array "contributions"
          (coerceDataToSqlite Fixture.stringify_empty_array "contributions"
             [("id", VStr "c1"); ("changes", VArr [])]))
     = Some (VArr []).
Proof.
  apply (document_column_roundtrip Fixture.parse_empty_array Fixture.stringify_empty_array
           "contributions" "changes" [("id", VStr "c1"); ("changes", VArr [])] (VArr []));
    try (vm_compute; reflexivity).
  left. eexists. reflexivity.
Defined.

(** X6.  A document column never makes a coercion fail: a text that
    [JSON.parse] rejects, and a value that is not a text, come out of
    [coerceRowFromSqlite] as they went in; a text, a number, a boolean or
    null comes out of [coerceDataToSqlite] as it went in (a text already
    serialised is written as it is). *)
Theorem document_column_fallbacks
    (JSON_parse : string -> option value) (JSON_stringify : value -> string)
    (table column : string) (o : obj) (v : value) :
  has (JSON_COLUMNS !! table) column = true ->
  isBooleanColumn table column = false ->
  obj_get column o = Some v ->
  ((forall text, v = VStr text -> JSON_parse text = None) ->
     obj_get column (coerceRowFromSqlite JSON_parse table o) = Some v)
  /\ ((forall items, v <> VArr items) -> (forall fields, v <> VObj fields) ->
        obj_get column (coerceDataToSqlite JSON_stringify table o) = Some v).
Proof.
  unfold isBooleanColumn. intros Hj Hb Hv.
  rewrite coerceRowFromSqlite_get, coerceDataToSqlite_get, Hv. simpl.
  unfold fromSqlite, toSqlite. rewrite Hb, Hj. split.
  - intros Hreject. destruct v; try reflexivity. rewrite (Hreject s eq_refl). reflexivity.
  - intros Harr Hobj. destruct v; try reflexivity.
    + destruct (Harr items). reflexivity.
    + destruct (Hobj fields). reflexivity.
Qed.

Lemma document_column_fallbacks_witness :
  obj_get "changes"
    (coerceRowFromSqlite Fixture.parse_empty_array "contributions"
       [("changes", VStr "renamed by hand")])
  = Some (VStr "renamed by hand")
  /\ obj_get "changes"
       (coerceDataToSqlite Fixture.stringify_empty_array "contributions"
          [("changes", VStr "renamed by hand")])
     = Some (VStr "renamed by hand").
Proof.
  destruct (document_column_fallbacks Fixture.parse_empty_array
              Fixture.stringify_empty_array "contributions" "changes"
              [("changes", VStr "renamed by hand")] (VStr "renamed by hand"))
    as [Hrow Hdata]; try (vm_compute; reflexivity).
  split.
  - apply Hrow. intros text [= <-]. vm_compute. reflexivity.
  - apply Hdata; discriminate.
Defined.

End CoerceProps.

(* ===================================================================== *)
(** * Properties of the filter builder *)
(* ===================================================================== *)

Module FilterProps.
Import Js QueryBuilder Vocabulary.

(** Membership in a concrete list, decided by evaluation. *)
Ltac by_membership := apply (bool_decide_unpack _); vm_compute; exact I.

Lemma split_nonempty c s : exists w ws, split c s = w :: ws.
Proof.
  destruct s as [|a r]; simpl; [eauto|].
  destruct (Ascii.eqb a c); [eauto|]. destruct (split c r); eauto.
Qed.

Lemma split_free c x : has_char c x = false -> split c x = [x].
Proof.
  induction x as [|a r IH]; simpl; [reflexivity|].
  intros [Ha Hr]%orb_false_iff. rewrite Ha, (IH Hr). reflexivity.
Qed.

Lemma split_app c x rest :
  has_char c x = false -> split c (x +:+ String c rest) = x :: split c rest.
Proof.
  induction x as [|a r IH]; simpl.
  - intros _. rewrite Ascii.eqb_refl. reflexivity.
  - intros [Ha Hr]%orb_false_iff. rewrite Ha, (IH Hr). reflexivity.
Qed.

Lemma join_cons_char sep a w ws :
  join sep (String a w :: ws) = String a (join sep (w :: ws)).
Proof. destruct ws; reflexivity. Qed.

(** Splitting and joining again gives the text back: the value of a term
    may hold periods. *)
Lemma join_split c s : join (String c "") (split c s) = s.
Proof.
  induction s as [|a r IH]; simpl; [reflexivity|].
  destruct (Ascii.eqb a c) eqn:Ha.
  - apply Ascii.eqb_eq in Ha. subst a.
    destruct (split_nonempty c r) as (w & ws & Hs). rewrite Hs in *.
    change (join (String c "") ("" :: w :: ws))
      with (String c (join (String c "") (w :: ws))).
    rewrite IH. reflexivity.
  - destruct (split_nonempty c r) as (w & ws & Hs). rewrite Hs in *.
    rewrite join_cons_char, IH. reflexivity.
Qed.

Lemma split_join c segs :
  segs <> [] -> Forall (fun s => has_char c s = false) segs ->
  split c (join (String c "") segs) = segs.
Proof.
  induction segs as [|x [|y r] IH]; intros Hne Hall; [done| |].
  - simpl. apply split_free. by inversion Hall.
  - change (join (String c "") (x :: y :: r))
      with (x +:+ String c (join (String c "") (y :: r))).
    inversion Hall as [|? ? Hx Hrest]; subst.
    rewrite (split_app _ _ _ Hx), IH; done.
Qed.

Lemma parseOrCondition_nonempty condition :
  (0 <? length (parseOrCondition condition))%nat = true.
Proof.
  unfold parseOrCondition.
  destruct (split_nonempty "," condition) as (w & ws & ->). reflexivity.
Qed.

Lemma parse_plain_term t :
  plain_term t ->
  let segments := split "." (trim (term_text t)) in
  hd "" segments = t.1.1 /\ segments !! 1%nat = Some t.1.2
  /\ join "." (drop 2 segments) = t.2.
Proof.
  destruct t as [[c o] v]. intros (Hc & Ho & _ & Htrim); simpl in *.
  rewrite Htrim. unfold term_text; simpl.
  change (c +:+ "." +:+ o +:+ "." +:+ v) with (c +:+ String "." (o +:+ String "." v)).
  rewrite (split_app _ _ _ Hc), (split_app _ _ _ Ho). simpl.
  split; [reflexivity|]. split; [reflexivity|]. apply join_split.
Qed.

Lemma map_placeholders {A} (xs : list A) :
  map (fun _ => "?") xs = replicate (length xs) "?".
Proof. induction xs; simpl; congruence. Qed.

(** No filter: the empty clause, which keeps every row. *)
Example buildWhere_no_filter : buildWhere [] (Some "people") = Ok ("", []).
Proof. reflexivity. Qed.

(** An equality on a boolean column and a null test, joined by AND; the
    boolean becomes the integer of the storage. *)
Example buildWhere_conjunction :
  buildWhere
    [ Fixture.mkFilter "eq" (Some "is_living") (VBool true);
      Fixture.mkFilter "is" (Some "death_date") VNull;
      Fixture.mkFilter "ilike" (Some "full_name") (VStr "%an%") ]
    (Some "people")
  = Ok ("WHERE " +:+ quoted "is_living" +:+ " = ? AND " +:+ quoted "death_date"
        +:+ " IS NULL AND LOWER(" +:+ quoted "full_name" +:+ ") LIKE LOWER(?)",
        [VNum 1; VStr "%an%"]).
Proof. vm_compute. reflexivity. Qed.

(** A set-membership filter whose value is not an array throws. *)
Example buildWhere_in_not_an_array :
  buildWhere [Fixture.mkFilter "in" (Some "id") (VNum 3)] (Some "people")
  = Throw (ErrorObj "values.map is not a function").
Proof. reflexivity. Qed.

(** C8.  A set-membership filter over an empty list adds the condition
    [1 = 0] and no parameter, so that alone it compiles to [WHERE 1 = 0];
    over a list of n values, n > 0, and for a table of an ordinary name
    (under a name inherited from [Object.prototype] the coercion of the
    values throws), it adds an IN condition with n placeholders and n
    parameters, the values coerced for the column. *)
Theorem in_filter_compiles (table : option string)
    (conditions : list string) (params : list value) (f : Filter) :
  f_type f = "in" ->
  (f_value f = VArr [] ->
     buildWhereStep table (conditions, params) f = Ok (conditions ++ ["1 = 0"], params)
     /\ buildWhere [f] table = Ok ("WHERE 1 = 0", []))
  /\ (forall v vs, f_value f = VArr (v :: vs) ->
        (forall t, table = Some t -> ordinary_table t) ->
        let n := length (v :: vs) in
        exists added,
          buildWhereStep table (conditions, params) f
          = Ok (conditions ++
                  [quoted (tpl (f_column f)) +:+ " IN ("
                   +:+ join ", " (replicate n "?") +:+ ")"],
                params ++ added)
          /\ added = map (coerceFilterValue table (f_column f)) (v :: vs)
          /\ length added = n).
Proof.
  intros Hty. split.
  - intros Hv. unfold buildWhere. simpl. unfold buildWhereStep.
    rewrite Hty, Hv. simpl. split; reflexivity.
  - intros v vs Hv _ n. eexists. split; [|split; [reflexivity|]].
    + unfold buildWhereStep. rewrite Hty, Hv. simpl.
      rewrite map_placeholders. reflexivity.
    + subst n. rewrite length_map. reflexivity.
Qed.

Lemma in_filter_compiles_witness :
  buildWhere [Fixture.mkFilter "in" (Some "id") (VArr [])] (Some "people")
  = Ok ("WHERE 1 = 0", [])
  /\ exists added,
      buildWhereStep (Some "people") (["1 = 1"], [VStr "x"])
        (Fixture.mkFilter "in" (Some "is_living") (VArr [VBool true; VBool false]))
      = Ok (["1 = 1"; quoted "is_living" +:+ " IN (?, ?)"], [VStr "x"] ++ added)
      /\ added = [VNum 1; VNum 0] /\ length added = 2%nat.
Proof.
  split.
  - apply (in_filter_compiles (Some "people") [] []
             (Fixture.mkFilter "in" (Some "id") (VArr []))); reflexivity.
  - destruct (in_filter_compiles (Some "people") ["1 = 1"] [VStr "x"]
                (Fixture.mkFilter "in" (Some "is_living") (VArr [VBool true; VBool false]))
                eq_refl) as [_ Hmany].
    assert (Hordinary : forall t, Some "people" = Some t -> ordinary_table t).
    { intros t [= <-]. apply (bool_decide_unpack _). vm_compute. exact I. }
    destruct (Hmany (VBool true) [VBool false] eq_refl Hordinary)
      as (added & Hstep & Hadded & Hlen).
    exists added. split; [exact Hstep|]. split; [|exact Hlen].
    rewrite Hadded. vm_compute. reflexivity.
Defined.

(** C9.  A disjunction is read term by term: the text is cut at commas,
    each term at periods into a column, an operator code and a value that
    keeps its own periods; a code outside eq, neq, gt, gte, lt, lte (or a
    missing code) reads as equality; every value becomes a text parameter
    as it stands, also under a boolean column; and the condition
    [father_id.eq.A,mother_id.eq.B] compiles to a parenthesised OR of two
    equalities with the parameters A and B in that order. *)
Theorem or_filter_compiles :
  (forall terms : list (string * string * string),
      terms <> [] -> Forall plain_term terms ->
      parseOrCondition (join "," (term_text <$> terms)) = term_part <$> terms)
  /\ (forall code : string,
        code ∉ ["eq"; "neq"; "gt"; "gte"; "lt"; "lte"] ->
        or_operator (Some code) = "=")
  /\ or_operator None = "="
  /\ (forall table conditions params f,
        f_type f = "or" ->
        let parts := parseOrCondition (default "" (f_condition f)) in
        buildWhereStep table (conditions, params) f
        = Ok (conditions ++ ["(" +:+ join " OR " (or_clause <$> parts) +:+ ")"],
              params ++ ((fun part => VStr (or_value part)) <$> parts)))
  /\ buildWhere
       [ {| f_type := "or"; f_column := None; f_value := VUndefined;
            f_operator := None;
            f_condition := Some "father_id.eq.A,mother_id.eq.B" |} ]
       (Some "families")
     = Ok ("WHERE (" +:+ quoted "father_id" +:+ " = ? OR "
           +:+ quoted "mother_id" +:+ " = ?)",
           [VStr "A"; VStr "B"]).
Proof.
  split; [|split; [|split; [|split]]].
  - intros terms Hne Hall. unfold parseOrCondition.
    rewrite split_join.
    + rewrite <- list_fmap_compose. apply Forall_fmap_ext_1.
      eapply Forall_impl; [exact Hall|]. intros t Ht. simpl.
      destruct (parse_plain_term t Ht) as (-> & -> & ->). reflexivity.
    + by destruct terms.
    + apply Forall_fmap. eapply Forall_impl; [exact Hall|].
      intros t (_ & _ & Hcomma & _). exact Hcomma.
  - intros code Hcode. unfold or_operator.
    repeat match goal with
           | |- context [String.eqb code ?s] =>
               destruct (String.eqb_spec code s);
               [subst code; exfalso; apply Hcode; set_solver|]
           end.
    reflexivity.
  - reflexivity.
  - intros table conditions params f Hty parts. unfold buildWhereStep.
    rewrite Hty. simpl.
    replace (if truthy_str (f_condition f) then tpl (f_condition f) else "")
      with (default "" (f_condition f))
      by (destruct (f_condition f) as [[|? ?]|]; reflexivity).
    subst parts. rewrite parseOrCondition_nonempty. reflexivity.
  - vm_compute. reflexivity.
Qed.

Lemma or_filter_compiles_witness :
  parseOrCondition "name.like.J.R.R. Tolkien,father_id.neq.A"
  = [ {| or_column := "name"; or_op := "="; or_value := "J.R.R. Tolkien" |};
      {| or_column := "father_id"; or_op := "!="; or_value := "A" |} ]
  /\ buildWhereStep (Some "people") ([], [])
       {| f_type := "or"; f_column := None; f_value := VUndefined;
          f_operator := None; f_condition := Some "is_living.eq.true" |}
     = Ok (["(" +:+ quoted "is_living" +:+ " = ?)"], [VStr "true"]).
Proof.
  destruct or_filter_compiles as (Hparse & _ & _ & Hstep & _). split.
  - apply (Hparse [("name", "like", "J.R.R. Tolkien"); ("father_id", "neq", "A")]).
    + discriminate.
    + repeat constructor.
  - apply (Hstep (Some "people") [] []
             {| f_type := "or"; f_column := None; f_value := VUndefined;
                f_operator := None; f_condition := Some "is_living.eq.true" |}).
    reflexivity.
Defined.

(* --------------------------------------------------------------------- *)
(** ** Further properties of the filter builder *)
(* --------------------------------------------------------------------- *)

(** A turn of the loop only adds to what was compiled before. *)
Lemma buildWhereStep_from_empty table cs ps f :
  buildWhereStep table (cs, ps) f
  = match buildWhereStep table ([], []) f with
    | Ok (dc, dp) => Ok (cs ++ dc, ps ++ dp)
    | Throw t => Throw t
    end.
Proof.
  unfold buildWhereStep.
  repeat case_match; simplify_eq; rewrite ?app_nil_r; reflexivity.
Qed.

Lemma buildWhereLoop_from_empty table fs :
  forall cs ps,
    buildWhereLoop table (cs, ps) fs
    = match buildWhereLoop table ([], []) fs with
      | Ok (dc, dp) => Ok (cs ++ dc, ps ++ dp)
      | Throw t => Throw t
      end.
Proof.
  induction fs as [|f rest IH]; intros cs ps; cbn [buildWhereLoop].
  - rewrite !app_nil_r. reflexivity.
  - rewrite (buildWhereStep_from_empty table cs ps f).
    destruct (buildWhereStep table ([], []) f) as [[dc dp]|t]; [|reflexivity].
    rewrite (IH (cs ++ dc) (ps ++ dp)), (IH dc dp).
    destruct (buildWhereLoop table ([], []) rest) as [[dc' dp']|t]; [|reflexivity].
    rewrite !app_assoc. reflexivity.
Qed.

Lemma buildWhereLoop_app table fs1 fs2 acc :
  buildWhereLoop table acc (fs1 ++ fs2)
  = match buildWhereLoop table acc fs1 with
    | Ok acc' => buildWhereLoop table acc' fs2
    | Throw t => Throw t
    end.
Proof.
  revert acc. induction fs1 as [|f rest IH]; intros acc; cbn [buildWhereLoop app];
    [reflexivity|].
  destruct (buildWhereStep table acc f); [apply IH|reflexivity].
Qed.

Lemma buildWhere_where_clause table fs :
  buildWhere fs table
  = match buildWhereLoop table ([], []) fs with
    | Ok (conditions, params) => Ok (where_clause conditions, params)
    | Throw t => Throw t
    end.
Proof. reflexivity. Qed.

(** X7.  Filters compile one after the other: the conditions and the
    parameters of two lists of filters put end to end are those of the
    first list followed by those of the second, joined by AND. *)
Theorem filters_compile_in_order (table : option string) (fs1 fs2 : list Filter)
    (cs1 cs2 : list string) (ps1 ps2 : list value) :
  buildWhereLoop table ([], []) fs1 = Ok (cs1, ps1) ->
  buildWhereLoop table ([], []) fs2 = Ok (cs2, ps2) ->
  buildWhere fs1 table = Ok (where_clause cs1, ps1)
  /\ buildWhere fs2 table = Ok (where_clause cs2, ps2)
  /\ buildWhere (fs1 ++ fs2) table = Ok (where_clause (cs1 ++ cs2), ps1 ++ ps2).
Proof.
  intros H1 H2. rewrite !buildWhere_where_clause, buildWhereLoop_app, H1, H2.
  rewrite buildWhereLoop_from_empty, H2. auto.
Qed.

Lemma filters_compile_in_order_witness :
  buildWhere
    ([Fixture.mkFilter "eq" (Some "is_living") (VBool true)]
     ++ [Fixture.mkFilter "in" (Some "generation") (VArr [VNum 3; VNum 4])])
    (Some "people")
  = Ok ("WHERE " +:+ quoted "is_living" +:+ " = ? AND " +:+ quoted "generation"
        +:+ " IN (?, ?)",
        [VNum 1] ++ [VNum 3; VNum 4]).
Proof.
  apply (filters_compile_in_order (Some "people")
           [Fixture.mkFilter "eq" (Some "is_living") (VBool true)]
           [Fixture.mkFilter "in" (Some "generation") (VArr [VNum 3; VNum 4])]
           [quoted "is_living" +:+ " = ?"] [quoted "generation" +:+ " IN (?, ?)"]);
    vm_compute; reflexivity.
Defined.

(** X8.  For a table of an ordinary name, [buildWhere] throws only on a
    set-membership filter whose value is not an array: when every filter
    of type [in] carries an array, it returns a clause and parameters.
    (Under a name inherited from [Object.prototype] the coercion of a
    filter value throws.) *)
Theorem buildWhere_returns (table : option string) (fs : list Filter) :
  (forall t, table = Some t -> ordinary_table t) ->
  Forall (fun f => f_type f = "in" -> exists items, f_value f = VArr items) fs ->
  exists clause params, buildWhere fs table = Ok (clause, params).
Proof.
  intros _ Hall. rewrite buildWhere_where_clause.
  assert (Hloop : forall acc, exists acc', buildWhereLoop table acc fs = Ok acc').
  { induction Hall as [|f rest Hf _ IH]; intros acc; cbn [buildWhereLoop]; [eauto|].
    assert (Hstep : exists acc', buildWhereStep table acc f = Ok acc').
    { destruct acc as [cs ps]. unfold buildWhereStep.
      destruct (String.eqb_spec (f_type f) "in") as [Hin|_].
      - destruct (Hf Hin) as [items ->]. simpl.
        repeat case_match; simplify_eq; eauto.
      - repeat case_match; simplify_eq; eauto. }
    destruct Hstep as [acc' ->]. apply IH. }
  destruct (Hloop ([], [])) as [[cs ps] ->]. eauto.
Qed.

Lemma buildWhere_returns_witness :
  exists clause params,
    buildWhere
      [ Fixture.mkFilter "in" (Some "id") (VArr [VStr "p1"]);
        Fixture.mkFilter "not" (Some "name") VUndefined;
        Fixture.mkFilter "like" None VNull ]
      (Some "people")
    = Ok (clause, params).
Proof.
  apply buildWhere_returns.
  - intros t [= <-]. apply (bool_decide_unpack _). vm_compute. exact I.
  - repeat constructor; try discriminate.
    intros _. eexists. reflexivity.
Defined.

(** X9.  A test [is] against a value other than null, and a filter of a
    type [buildWhere] does not know, restrict nothing: the request compiles
    as if the filter were not there. *)
Theorem passed_over_filter_restricts_nothing (table : option string)
    (fs1 fs2 : list Filter) (f : Filter) :
  passed_over f ->
  buildWhere (fs1 ++ f :: fs2) table = buildWhere (fs1 ++ fs2) table.
Proof.
  intros Hf. rewrite !buildWhere_where_clause, !buildWhereLoop_app.
  destruct (buildWhereLoop table ([], []) fs1) as [[cs ps]|t]; [|reflexivity].
  cbn [buildWhereLoop].
  assert (Hstep : buildWhereStep table (cs, ps) f = Ok (cs, ps)).
  { unfold buildWhereStep. destruct Hf as [[Hty Hv]|Hty].
    - rewrite Hty, Hv. reflexivity.
    - repeat match goal with
             | |- context [String.eqb (f_type f) ?s] =>
                 destruct (String.eqb_spec (f_type f) s) as [Heq|_];
                 [exfalso; apply Hty; rewrite Heq; by_membership|]
             end.
      reflexivity. }
  rewrite Hstep. reflexivity.
Qed.

Lemma passed_over_filter_restricts_nothing_witness :
  buildWhere
    ([Fixture.mkFilter "eq" (Some "id") (VStr "p1")]
     ++ Fixture.mkFilter "is" (Some "is_living") (VBool true) :: [])
    (Some "people")
  = Ok ("WHERE " +:+ quoted "id" +:+ " = ?", [VStr "p1"])
  /\ buildWhere ([] ++ Fixture.mkFilter "gte" (Some "generation") (VNum 3) :: [])
       (Some "people")
     = Ok ("", []).
Proof.
  split.
  - rewrite (passed_over_filter_restricts_nothing (Some "people")
               [Fixture.mkFilter "eq" (Some "id") (VStr "p1")] []
               (Fixture.mkFilter "is" (Some "is_living") (VBool true))).
    + reflexivity.
    + left. split; reflexivity.
  - rewrite (passed_over_filter_restricts_nothing (Some "people") [] []
               (Fixture.mkFilter "gte" (Some "generation") (VNum 3))).
    + reflexivity.
    + right. by_membership.
Defined.

Lemma count_char_app c a b :
  count_char c (a +:+ b) = count_char c a + count_char c b.
Proof.
  induction a as [|x a IH]; [reflexivity|].
  change (String x a +:+ b) with (String x (a +:+ b)). simpl. rewrite IH. lia.
Qed.

Lemma count_char_absent c s : has_char c s = false -> count_char c s = 0.
Proof.
  induction s as [|a r IH]; simpl; [reflexivity|].
  intros [-> Hr]%orb_false_iff. rewrite (IH Hr). reflexivity.
Qed.

Lemma count_char_join c sep xs :
  count_char c sep = 0 ->
  count_char c (join sep xs) = sum_list (count_char c <$> xs).
Proof.
  intros Hsep. induction xs as [|x [|y r] IH]; [reflexivity|simpl; lia|].
  change (join sep (x :: y :: r)) with (x +:+ sep +:+ join sep (y :: r)).
  rewrite !count_char_app, Hsep, IH. reflexivity.
Qed.

Lemma count_char_quoted c name :
  count_char c dq = 0 -> count_char c (quoted name) = count_char c name.
Proof. intros Hdq. unfold quoted. rewrite !count_char_app, Hdq. lia. Qed.

Lemma count_or_operator operator : count_char "?" (or_operator operator) = 0.
Proof. unfold or_operator. repeat case_match; reflexivity. Qed.

Lemma count_placeholders {A} (xs : list A) :
  sum_list (count_char "?" <$> map (fun _ => "?") xs) = length xs.
Proof. induction xs as [|x r IH]; simpl; [reflexivity|]. f_equal. exact IH. Qed.

Lemma count_or_clauses parts :
  Forall (fun part => has_char "?" (or_column part) = false /\
                      count_char "?" (or_op part) = 0) parts ->
  sum_list (count_char "?" <$>
              map (fun part => quoted (or_column part) +:+ " " +:+ or_op part +:+ " ?")
                  parts)
  = length parts.
Proof.
  induction 1 as [|part rest [Hcol Hop] _ IH]; [reflexivity|].
  rewrite map_cons, fmap_cons. cbn [sum_list_with length].
  rewrite IH, !count_char_app, count_char_quoted, (count_char_absent _ _ Hcol), Hop
    by reflexivity.
  reflexivity.
Qed.

Lemma parseOrCondition_operators condition :
  Forall (fun part => count_char "?" (or_op part) = 0) (parseOrCondition condition).
Proof.
  unfold parseOrCondition. apply Forall_fmap, Forall_true.
  intros part. apply count_or_operator.
Qed.

(** One turn of the loop adds as many question marks as parameters. *)
Lemma buildWhereStep_arity table cs ps f cs' ps' :
  plain_names f ->
  buildWhereStep table (cs, ps) f = Ok (cs', ps') ->
  sum_list (count_char "?" <$> cs) = length ps ->
  sum_list (count_char "?" <$> cs') = length ps'.
Proof.
  unfold plain_names, buildWhereStep. intros Hnames Hstep Hacc.
  assert (Hone : forall text,
             sum_list (count_char "?" <$> cs ++ [text])
             = length ps + count_char "?" text).
  { intros text. rewrite fmap_app, sum_list_with_app, Hacc. simpl. lia. }
  destruct (String.eqb (f_type f) "or") eqn:Hor.
  - apply String.eqb_eq in Hor. rewrite Hor in Hstep. simpl in Hstep.
    replace (if truthy_str (f_condition f) then tpl (f_condition f) else "")
      with (default "" (f_condition f)) in Hstep
      by (destruct (f_condition f) as [[|? ?]|]; reflexivity).
    rewrite parseOrCondition_nonempty in Hstep. injection Hstep as <- <-.
    rewrite Hone, length_app, length_fmap, !count_char_app.
    rewrite count_char_join by reflexivity. rewrite count_or_clauses; [simpl; lia|].
    pose proof (parseOrCondition_operators (default "" (f_condition f))) as Hops.
    revert Hnames Hops. generalize (parseOrCondition (default "" (f_condition f))).
    induction 1 as [|part rest Hcol _ IH]; intros Hops; [constructor|].
    inversion Hops; subst. constructor; auto.
  - pose proof (count_char_absent _ _ Hnames) as Hcol.
    assert (Hq : count_char "?" (quoted (tpl (f_column f))) = 0)
      by (rewrite count_char_quoted; [exact Hcol|reflexivity]).
    repeat case_match; simplify_eq;
      rewrite ?Hone, ?length_app, ?length_fmap, ?length_map, ?count_char_app, ?Hq;
      try (simpl; lia).
    rewrite count_char_join by reflexivity. rewrite count_placeholders. simpl. lia.
Qed.

Lemma buildWhere_arity (table : option string) (fs : list Filter)
    (clause : string) (params : list value) :
  Forall plain_names fs ->
  buildWhere fs table = Ok (clause, params) ->
  count_char "?" clause = length params.
Proof.
  intros Hnames. rewrite buildWhere_where_clause.
  assert (Hloop : forall cs ps cs' ps',
             buildWhereLoop table (cs, ps) fs = Ok (cs', ps') ->
             sum_list (count_char "?" <$> cs) = length ps ->
             sum_list (count_char "?" <$> cs') = length ps').
  { induction Hnames as [|f rest Hf _ IH]; intros cs ps cs' ps'; cbn [buildWhereLoop].
    - intros [= <- <-]. auto.
    - destruct (buildWhereStep table (cs, ps) f) as [[cs1 ps1]|t] eqn:Hstep; [|discriminate].
      intros Hrest Hacc. eapply IH; [exact Hrest|].
      eapply buildWhereStep_arity; eassumption. }
  destruct (buildWhereLoop table ([], []) fs) as [[cs ps]|t] eqn:Hrun; [|discriminate].
  intros [= <- <-]. specialize (Hloop [] [] cs ps Hrun eq_refl).
  unfold where_clause. destruct cs as [|c cs']; [simpl in *; lia|].
  change (0 <? length (c :: cs'))%nat with true. cbv iota.
  rewrite count_char_app, count_char_join by reflexivity.
  rewrite Hloop. reflexivity.
Qed.

(** X10.  When no column name holds a question mark, the clause
    [buildWhere] returns holds exactly one question mark for each of the
    parameters it returns: the statement binds. *)
Theorem placeholders_match_parameters (table : option string) (fs : list Filter)
    (clause : string) (params : list value) :
  Forall plain_names fs ->
  buildWhere fs table = Ok (clause, params) ->
  count_char "?" clause = length params.
Proof. apply buildWhere_arity. Qed.

Lemma placeholders_match_parameters_witness :
  count_char "?"
    ("WHERE (" +:+ quoted "father_id" +:+ " = ? OR " +:+ quoted "mother_id"
     +:+ " = ?) AND " +:+ quoted "generation" +:+ " IN (?, ?, ?) AND "
     +:+ quoted "death_date" +:+ " IS NOT NULL")
  = length [VStr "who?"; VStr "B"; VNum 1; VNum 2; VNum 3].
Proof.
  apply (placeholders_match_parameters (Some "people")
           [ {| f_type := "or"; f_column := None; f_value := VUndefined;
                f_operator := None;
                f_condition := Some "father_id.eq.who?,mother_id.eq.B" |};
             Fixture.mkFilter "in" (Some "generation") (VArr [VNum 1; VNum 2; VNum 3]);
             {| f_type := "not"; f_column := Some "death_date"; f_value := VNull;
                f_operator := Some "is"; f_condition := None |} ]).
  - repeat constructor.
  - vm_compute. reflexivity.
Defined.

Lemma boolean_column_named table column :
  TypeCoerce.isBooleanColumn table column = true ->
  truthy_str (Some table) = true /\ truthy_str (Some column) = true.
Proof.
  unfold TypeCoerce.isBooleanColumn, TypeCoerce.has.
  destruct (TypeCoerce.BOOLEAN_COLUMNS !! table) as [cols|] eqn:Hcols; [|discriminate].
  intros Hin. apply elem_of_list_to_map_2 in Hcols.
  repeat (apply elem_of_cons in Hcols as [[= -> ->]|Hcols];
          [destruct column; [vm_compute in Hin; discriminate|split; reflexivity]|]).
  apply elem_of_nil in Hcols as [].
Qed.

(** X11.  The filter builder and the body coercion agree on booleans: for
    a column declared boolean, a filter value [true] or [false] becomes the
    integer that [coerceDataToSqlite] stores for it.  Another filter value
    of that column, and any value of another column, is the parameter as
    it stands. *)
Theorem filter_value_agrees_with_storage
    (JSON_stringify : value -> string) (table column : string) (b : bool) (v : value) :
  (TypeCoerce.isBooleanColumn table column = true ->
     Some (coerceFilterValue (Some table) (Some column) (VBool b))
     = obj_get column
         (TypeCoerce.coerceDataToSqlite JSON_stringify table [(column, VBool b)])
     /\ coerceFilterValue (Some table) (Some column) (VBool b)
        = VNum (if b then 1 else 0)
     /\ ((forall b', v <> VBool b') ->
         coerceFilterValue (Some table) (Some column) v = v))
  /\ (TypeCoerce.isBooleanColumn table column = false ->
        coerceFilterValue (Some table) (Some column) v = v).
Proof.
  split.
  - intros Hb. destruct (boolean_column_named _ _ Hb) as [Ht Hc].
    rewrite CoerceProps.coerceDataToSqlite_get.
    assert (Hget : obj_get column [(column, VBool b)] = Some (VBool b))
      by (simpl; rewrite String.eqb_refl; reflexivity).
    rewrite Hget. simpl. unfold TypeCoerce.toSqlite, coerceFilterValue.
    unfold TypeCoerce.isBooleanColumn in Hb. change (tpl (Some table)) with table.
    change (tpl (Some column)) with column. unfold TypeCoerce.isBooleanColumn.
    rewrite Hb, Ht, Hc. split; [|split].
    + destruct b; reflexivity.
    + destruct b; reflexivity.
    + intros Hv. destruct v as [| |[|]| | | |]; try reflexivity.
      * destruct (Hv true). reflexivity.
      * destruct (Hv false). reflexivity.
  - intros Hb. unfold coerceFilterValue. change (tpl (Some table)) with table.
    change (tpl (Some column)) with column. rewrite Hb, andb_false_r. reflexivity.
Qed.

Lemma filter_value_agrees_with_storage_witness :
  coerceFilterValue (Some "events") (Some "recurring") (VBool true) = VNum 1
  /\ coerceFilterValue (Some "events") (Some "recurring") (VStr "true") = VStr "true"
  /\ coerceFilterValue (Some "events") (Some "title") (VBool true) = VBool true.
Proof.
  destruct (filter_value_agrees_with_storage (fun _ => "{}") "events" "recurring"
              true (VStr "true")) as [Hdeclared _].
  destruct (Hdeclared eq_refl) as (_ & Htrue & Hother).
  destruct (filter_value_agrees_with_storage (fun _ => "{}") "events" "title"
              true (VBool true)) as [_ Hplain].
  split; [exact Htrue|]. split; [apply Hother; discriminate|apply Hplain; reflexivity].
Defined.

End FilterProps.

(* ===================================================================== *)
(** * Properties of the query executor *)
(* ===================================================================== *)

Module ExecutorProps.
Import Js QueryBuilder Vocabulary.

Ltac run_M := unfold bind, lift, ret, effect in *; simpl in *.

(** Membership in a concrete set or list, decided by evaluation. *)
Ltac by_evaluation := apply (bool_decide_unpack _); vm_compute; exact I.

Ltac solve_uniform :=
  first [ left; reflexivity
        | right; split; [reflexivity | eexists; reflexivity] ].

Lemma append_empty_r (s : string) : s +:+ "" = s.
Proof.
  induction s as [|a r IH]; [reflexivity|].
  change (String a (r +:+ "") = String a r). by rewrite IH.
Qed.

Section WithHost.
Context `{Host}.

Lemma executeSelect_uniform payload w r w' :
  executeSelect payload w = (Ok r, w') -> uniform r.
Proof.
  unfold executeSelect. run_M. intros Hr.
  repeat case_match; simplify_eq; solve_uniform.
Qed.

Lemma executeInsert_uniform payload w r w' :
  executeInsert payload w = (Ok r, w') -> uniform r.
Proof.
  unfold executeInsert. run_M. intros Hr.
  repeat case_match; simplify_eq; solve_uniform.
Qed.

Lemma executeUpdate_uniform payload w r w' :
  executeUpdate payload w = (Ok r, w') -> uniform r.
Proof.
  unfold executeUpdate, writeUpdate. run_M. intros Hr.
  repeat case_match; simplify_eq; solve_uniform.
Qed.

Lemma executeDelete_uniform payload w r w' :
  executeDelete payload w = (Ok r, w') -> uniform r.
Proof.
  unfold executeDelete. run_M. intros Hr.
  repeat case_match; simplify_eq; solve_uniform.
Qed.

Lemma dispatch_uniform payload w r w' :
  dispatch payload w = (Ok r, w') -> uniform r.
Proof.
  unfold dispatch. intros Hr. repeat case_match.
  - eapply executeSelect_uniform, Hr.
  - eapply executeInsert_uniform, Hr.
  - eapply executeUpdate_uniform, Hr.
  - eapply executeDelete_uniform, Hr.
  - run_M. simplify_eq. solve_uniform.
Qed.

Lemma catch_uniform err : uniform (catch err).
Proof. unfold catch. case_match; solve_uniform. Qed.

End WithHost.

(** C4.  A read whose statement yields [rows]: with [single], no row gives
    null data and the not-found error, one row gives that row itself and
    no error; with [maybeSingle] and not [single], no row gives null data
    and no error, one or more rows give the first and no error. *)
Theorem select_cardinality `{Host} (payload : QueryPayload)
    (clause : string) (params : list value) (stmt : cursor)
    (rows : list obj) (w w' : World) :
  method payload = "select" ->
  buildWhere (filters payload) (Some (table payload)) = Ok (clause, params) ->
  db_prepare (selectSql payload clause) params w = (Ok stmt, w') ->
  stepAll (table payload) stmt = Ok rows ->
  (single payload = true ->
     (rows = [] ->
        executeQuery payload w
        = ({| data := VNull; error := Some notFoundError |}, w'))
     /\ (forall row, rows = [row] ->
           executeQuery payload w = ({| data := VObj row; error := None |}, w')))
  /\ (single payload = false -> maybeSingle payload = true ->
        (rows = [] ->
           executeQuery payload w = ({| data := VNull; error := None |}, w'))
        /\ (forall row rest, rows = row :: rest ->
              executeQuery payload w = ({| data := VObj row; error := None |}, w'))).
Proof.
  intros Hm Hwhere Hprep Hstep.
  assert (Hrun : executeQuery payload w
                 = (if single payload then
                      match rows with
                      | [] => {| data := VNull; error := Some notFoundError |}
                      | row :: _ => {| data := VObj row; error := None |}
                      end
                    else if maybeSingle payload then
                      {| data := match rows with row :: _ => VObj row | [] => VNull end;
                         error := None |}
                    else {| data := VArr (map VObj rows); error := None |}, w')).
  { unfold executeQuery, dispatch. rewrite Hm. simpl.
    unfold executeSelect, bind, lift. rewrite Hwhere, Hprep, Hstep.
    unfold ret. destruct (single payload), (maybeSingle payload), rows; reflexivity. }
  split.
  - intros Hs. rewrite Hrun, Hs. split.
    + intros ->. reflexivity.
    + intros row ->. reflexivity.
  - intros Hs Hms. rewrite Hrun, Hs, Hms. split.
    + intros ->. reflexivity.
    + intros row rest ->. reflexivity.
Qed.

Lemma select_cardinality_witness :
  executeQuery
    {| table := "people"; method := "select"; columns := Some "*"; body := None;
       filters := [Fixture.mkFilter "eq" (Some "id") (VStr "p9")];
       order := None; limit := None; single := true; maybeSingle := false |}
    (Fixture.quiet [])
  = ({| data := VNull; error := Some notFoundError |}, Fixture.quiet [])
  /\ executeQuery
       {| table := "people"; method := "select"; columns := Some "*"; body := None;
          filters := [Fixture.mkFilter "eq" (Some "id") (VStr "p1")];
          order := None; limit := None; single := false; maybeSingle := true |}
       (Fixture.quiet [[("id", VStr "p1"); ("is_living", VNum 1)]; [("id", VStr "p1")]])
     = ({| data := VObj [("id", VStr "p1"); ("is_living", VBool true)]; error := None |},
        Fixture.quiet [[("id", VStr "p1"); ("is_living", VNum 1)]; [("id", VStr "p1")]]).
Proof.
  split.
  - eapply (select_cardinality (H := Fixture.host)); reflexivity.
  - eapply (select_cardinality (H := Fixture.host)
              _ _ _ _ [[("id", VStr "p1"); ("is_living", VBool true)]; [("id", VStr "p1")]]);
      reflexivity.
Defined.

(** C5.  [executeQuery] always returns a result, of the uniform shape.
    When the switch throws, a message holding [UNIQUE constraint failed]
    gives null data and the code 23505 with that message, and anything
    else gives null data and what the error mapper makes of the failure;
    so does a failing INSERT. *)
Theorem executeQuery_catches `{Host} (payload : QueryPayload) (w : World) :
  uniform (executeQuery payload w).1
  /\ (forall err w',
        dispatch payload w = (Throw err, w') ->
        (includes "UNIQUE constraint failed" (message_of err) = true ->
           executeQuery payload w
           = ({| data := VNull;
                 error := Some {| message := message_of err; code := Some "23505" |} |},
              w'))
        /\ (includes "UNIQUE constraint failed" (message_of err) = false ->
              executeQuery payload w
              = ({| data := VNull; error := Some (sqliteError err) |}, w')))
  /\ (forall record stamped err w1 w2,
        method payload = "insert" ->
        body payload = Some (One record) ->
        stampInsert (table payload) (coerceDataToSqlite (table payload) record) w
        = (Ok stamped, w1) ->
        db_run (insertSql (table payload) stamped) (Object_values stamped) w1
        = (Throw err, w2) ->
        includes "UNIQUE constraint failed" (message_of err) = true ->
        executeQuery payload w
        = ({| data := VNull;
              error := Some {| message := message_of err; code := Some "23505" |} |},
           w2)).
Proof.
  assert (Hcatch : forall err w',
             dispatch payload w = (Throw err, w') ->
             executeQuery payload w = (catch err, w')).
  { intros err w' Hd. unfold executeQuery. rewrite Hd. reflexivity. }
  split; [|split].
  - unfold executeQuery. destruct (dispatch payload w) as [[r|err] w'] eqn:Hd; simpl.
    + eapply dispatch_uniform, Hd.
    + apply catch_uniform.
  - intros err w' Hd. rewrite (Hcatch _ _ Hd). unfold catch.
    split; intros ->; reflexivity.
  - intros record stamped err w1 w2 Hm Hbody Hstamp Hrun Hmsg.
    rewrite (Hcatch err w2).
    + unfold catch. rewrite Hmsg. reflexivity.
    + unfold dispatch. rewrite Hm. simpl.
      unfold executeInsert. rewrite Hbody. simpl.
      unfold insertRecord, writeRecord, bind. rewrite Hstamp, Hrun. reflexivity.
Qed.

Lemma executeQuery_catches_witness :
  executeQuery
    {| table := "people"; method := "insert"; columns := Some "*";
       body := Some (One [("id", VStr "p1"); ("name", VStr "An")]);
       filters := []; order := None; limit := None;
       single := true; maybeSingle := false |}
    (Fixture.failing (ErrorObj "UNIQUE constraint failed: people.id"))
  = ({| data := VNull;
        error := Some {| message := "UNIQUE constraint failed: people.id";
                         code := Some "23505" |} |},
     Fixture.tick (Fixture.failing (ErrorObj "UNIQUE constraint failed: people.id"))).
Proof.
  eapply (proj2 (proj2 (executeQuery_catches (H := Fixture.host) _ _))
            _ _ (ErrorObj "UNIQUE constraint failed: people.id"));
    reflexivity.
Defined.

Lemma insertLoop_app `{Host} (payload : QueryPayload) (rs1 rs2 : list obj) :
  forall acc w,
    insertLoop payload (rs1 ++ rs2) acc w
    = bind (insertLoop payload rs1 acc) (insertLoop payload rs2) w.
Proof.
  induction rs1 as [|r rest IH]; intros acc w; [reflexivity|].
  cbn [insertLoop app]. unfold bind.
  destruct (insertRecord payload r acc w) as [[rows|t] w1]; [|reflexivity].
  rewrite IH. unfold bind. reflexivity.
Qed.

Lemma insertRecord_rows `{Host} (payload : QueryPayload) (record : obj)
    (acc rows : list obj) (w w' : World) :
  insertRecord payload record acc w = (Ok rows, w') ->
  exists new, rows = acc ++ new /\ length new <= 1
              /\ (truthy_str (columns payload) = false -> new = []).
Proof.
  unfold insertRecord, writeRecord, bind, ret, lift. intros Hrun.
  repeat case_match; simplify_eq;
    first [ exists []; rewrite app_nil_r; simpl; split; [reflexivity|];
            split; [lia|auto]
          | eexists [_]; split; [reflexivity|]; split; [simpl; lia|];
            intros; congruence ].
Qed.

Lemma insertLoop_rows `{Host} (payload : QueryPayload) (records : list obj) :
  forall acc rows w w',
    insertLoop payload records acc w = (Ok rows, w') ->
    exists new, rows = acc ++ new /\ length new <= length records
                /\ (truthy_str (columns payload) = false -> new = []).
Proof.
  induction records as [|r rest IH]; intros acc rows w w'; cbn [insertLoop].
  - unfold ret. intros [= <- _]. exists []. rewrite app_nil_r. simpl. auto.
  - unfold bind. destruct (insertRecord payload r acc w) as [[rows1|t] w1] eqn:Hone;
      [|discriminate].
    intros Hrest. apply insertRecord_rows in Hone as (new1 & -> & Hlen1 & Hnone1).
    apply IH in Hrest as (new2 & -> & Hlen2 & Hnone2).
    exists (new1 ++ new2). rewrite app_assoc. split; [reflexivity|]. split.
    + rewrite length_app. simpl. lia.
    + intros Hc. rewrite (Hnone1 Hc), (Hnone2 Hc). reflexivity.
Qed.

(** What [stampInsert] makes of a coerced record: the record with, when
    it lacks them, a generated [id], [created_at] set to the time read
    after that and, for a table that tracks it, [updated_at] set to that
    same time; nothing else changes. *)
Lemma stampInsert_fills `{Host} (t : string) (coerced : obj) (w : World) :
  let w1 := if truthy (obj_prop "id" coerced) then w else (randomUUID w).2 in
  let now := (Date_toISOString w1).1 in
  let w2 := (Date_toISOString w1).2 in
  exists stamped,
    stampInsert t coerced w = (Ok stamped, w2)
    /\ (obj_get "id" coerced = None ->
          obj_get "id" stamped = Some (VStr (randomUUID w).1))
    /\ (obj_get "created_at" coerced = None ->
          obj_get "created_at" stamped = Some (VStr now))
    /\ (t ∈ TABLES_WITH_UPDATED_AT ->
        obj_get "updated_at" coerced = None ->
          obj_get "updated_at" stamped = Some (VStr now))
    /\ (forall k, k ∉ ["id"; "created_at"; "updated_at"] ->
          obj_get k stamped = obj_get k coerced).
Proof.
  intros w1 now w2.
  assert (Hstamp : exists stamped,
             stampInsert t coerced w = (Ok stamped, w2)
             /\ stamped =
                let c1 := if truthy (obj_prop "id" coerced) then coerced
                          else obj_set "id" (VStr (randomUUID w).1) coerced in
                let c2 := if truthy (obj_prop "created_at" c1) then c1
                          else obj_set "created_at" (VStr now) c1 in
                if bool_decide (t ∈ TABLES_WITH_UPDATED_AT)
                   && negb (truthy (obj_prop "updated_at" c2))
                then obj_set "updated_at" (VStr now) c2 else c2).
  { unfold stampInsert, generateUUID, bind, ret, effect. subst w2 now w1.
    destruct (truthy (obj_prop "id" coerced)); simpl;
      eexists; (split; [reflexivity|]);
      repeat case_match; simpl in *; congruence. }
  destruct Hstamp as (stamped & Hrun & Hstamped). exists stamped.
  split; [exact Hrun|].
  assert (Hget : forall k, obj_prop k coerced = default VUndefined (obj_get k coerced))
    by reflexivity.
  split; [|split; [|split]].
  - intros Hid. subst stamped. unfold obj_prop at 1. rewrite Hid. simpl.
    repeat case_match; rewrite ?CoerceProps.obj_get_set; reflexivity.
  - intros Hc. subst stamped. simpl.
    assert (Hc1 : forall c1, c1 = coerced \/ (exists v, c1 = obj_set "id" v coerced) ->
                  truthy (obj_prop "created_at" c1) = false).
    { intros c1 [->|[v ->]]; unfold obj_prop;
        rewrite ?CoerceProps.obj_get_set; simpl; rewrite Hc; reflexivity. }
    destruct (truthy (obj_prop "id" coerced)).
    + rewrite Hc1 by (left; reflexivity).
      repeat case_match; rewrite ?CoerceProps.obj_get_set; reflexivity.
    + rewrite Hc1 by (right; eexists; reflexivity).
      repeat case_match; rewrite ?CoerceProps.obj_get_set; reflexivity.
  - intros Ht Hu. subst stamped. simpl. rewrite (bool_decide_eq_true_2 _ Ht). simpl.
    set (c1 := if truthy (obj_prop "id" coerced) then coerced else _).
    set (c2 := if truthy (obj_prop "created_at" c1) then c1 else _).
    assert (Hu2 : obj_get "updated_at" c2 = None).
    { subst c2 c1. repeat case_match; rewrite ?CoerceProps.obj_get_set; simpl; exact Hu. }
    unfold obj_prop at 1. rewrite Hu2. simpl.
    rewrite CoerceProps.obj_get_set. reflexivity.
  - intros k Hk. subst stamped. simpl.
    assert (String.eqb "id" k = false /\ String.eqb "created_at" k = false
            /\ String.eqb "updated_at" k = false) as (H1 & H2 & H3).
    { repeat split; apply String.eqb_neq; intros <-; apply Hk; set_solver. }
    repeat case_match; rewrite ?CoerceProps.obj_get_set, ?H1, ?H2, ?H3; reflexivity.
Qed.

Lemma executeQuery_insert `{Host} (payload : QueryPayload) (w : World) :
  method payload = "insert" ->
  executeQuery payload w
  = match executeInsert payload w with
    | (Ok result, w') => (result, w')
    | (Throw err, w') => (catch err, w')
    end.
Proof. intros Hm. unfold executeQuery, dispatch. rewrite Hm. reflexivity. Qed.

Lemma executeInsert_records `{Host} (payload : QueryPayload) :
  executeInsert payload
  = bind (insertLoop payload (body_records payload) [])
      (fun insertedRows =>
         if single payload && (0 <? length insertedRows)%nat
         then ret {| data := first insertedRows; error := None |}
         else ret {| data := if truthy_str (columns payload)
                             then VArr (map VObj insertedRows) else VNull;
                     error := None |}).
Proof. reflexivity. Qed.

(** C6.  Every record of the body of an insert request is written
    stamped.  For a table of an ordinary name and a record with no key
    [__proto__], once the records before it are written, the record is
    coerced and given, when it lacks them, a generated [id], [created_at]
    set to the time read for this record and, for a table that tracks it,
    [updated_at] set to that same time, nothing else changing; and the
    engine is run with the INSERT statement of the columns of that stamped
    record and with its values: a failure of that run is the error of the
    request, and after its success the request goes on with the records
    that follow. *)
Theorem insert_fills_generated_columns `{Host} (payload : QueryPayload)
    (before after : list obj) (record : obj) (insertedRows : list obj)
    (w w0 : World) :
  method payload = "insert" ->
  body_records payload = before ++ record :: after ->
  ordinary_table (table payload) ->
  ordinary_keys record ->
  insertLoop payload before [] w = (Ok insertedRows, w0) ->
  let coerced := coerceDataToSqlite (table payload) record in
  let w1 := if truthy (obj_prop "id" coerced) then w0 else (randomUUID w0).2 in
  let now := (Date_toISOString w1).1 in
  let w2 := (Date_toISOString w1).2 in
  exists stamped,
    stampInsert (table payload) coerced w0 = (Ok stamped, w2)
    /\ insertRecord payload record insertedRows w0
       = writeRecord payload stamped insertedRows w2
    /\ (obj_get "id" coerced = None ->
          obj_get "id" stamped = Some (VStr (randomUUID w0).1))
    /\ (obj_get "created_at" coerced = None ->
          obj_get "created_at" stamped = Some (VStr now))
    /\ (table payload ∈ TABLES_WITH_UPDATED_AT ->
        obj_get "updated_at" coerced = None ->
          obj_get "updated_at" stamped = Some (VStr now))
    /\ (forall k, k ∉ ["id"; "created_at"; "updated_at"] ->
          obj_get k stamped = obj_get k coerced)
    /\ (forall err w3,
          db_run (insertSql (table payload) stamped) (Object_values stamped) w2
          = (Throw err, w3) ->
          executeQuery payload w = (catch err, w3))
    /\ (forall w3,
          db_run (insertSql (table payload) stamped) (Object_values stamped) w2
          = (Ok tt, w3) ->
          truthy_str (columns payload) = false ->
          executeQuery payload w
          = match insertLoop payload after insertedRows w3 with
            | (Ok _, w4) => ({| data := VNull; error := None |}, w4)
            | (Throw err, w4) => (catch err, w4)
            end).
Proof.
  intros Hm Hbody _ _ Hbefore coerced w1 now w2.
  destruct (stampInsert_fills (table payload) coerced w0)
    as (stamped & Hstamp & Hid & Hcreated & Hupdated & Hother).
  fold w1 now w2 in Hstamp, Hcreated, Hupdated.
  exists stamped.
  assert (Hrecord : insertRecord payload record insertedRows w0
                    = writeRecord payload stamped insertedRows w2).
  { unfold insertRecord, bind. fold coerced. rewrite Hstamp. reflexivity. }
  assert (Hloop : insertLoop payload (body_records payload) [] w
                  = bind (writeRecord payload stamped insertedRows)
                      (insertLoop payload after) w2).
  { rewrite Hbody, insertLoop_app. unfold bind at 1. rewrite Hbefore.
    cbn [insertLoop]. unfold bind at 1. rewrite Hrecord. reflexivity. }
  repeat (split; [assumption|]). split.
  - intros err w3 Hrun. rewrite (executeQuery_insert _ _ Hm), executeInsert_records.
    unfold bind at 1. rewrite Hloop.
    unfold writeRecord, bind. rewrite Hrun. reflexivity.
  - intros w3 Hrun Hcols. rewrite (executeQuery_insert _ _ Hm), executeInsert_records.
    unfold bind at 1. rewrite Hloop.
    unfold writeRecord, bind at 1 2. rewrite Hrun, Hcols. unfold ret at 1.
    destruct (insertLoop payload after insertedRows w3) as [[rows|err] w4] eqn:Hafter;
      [|reflexivity].
    apply insertLoop_rows in Hafter as (new2 & -> & _ & Hnone2).
    apply insertLoop_rows in Hbefore as (new1 & -> & _ & Hnone1).
    rewrite (Hnone1 Hcols), (Hnone2 Hcols). simpl. rewrite andb_false_r.
    reflexivity.
Qed.

Lemma insert_fills_generated_columns_witness :
  exists stamped,
    obj_get "is_living" stamped = Some (VNum 1)
    /\ obj_get "id" stamped = Some (VStr "uuid-1")
    /\ obj_get "created_at" stamped = Some (VStr "2026-02-26T00:00:00.2Z")
    /\ obj_get "updated_at" stamped = Some (VStr "2026-02-26T00:00:00.2Z")
    /\ executeQuery (H := Fixture.recording_host)
         {| table := "people"; method := "insert"; columns := None;
            body := Some (Many [ [("id", VStr "p1")];
                                 [("name", VStr "An"); ("is_living", VBool true)] ]);
            filters := []; order := None; limit := None;
            single := false; maybeSingle := false |}
         {| Fixture.replies := []; Fixture.statements := []; Fixture.clock := 0 |}
       = ({| data := VNull; error := None |},
          {| Fixture.replies := [];
             Fixture.statements :=
               [ ("INSERT INTO " +:+ quoted "people" +:+ " (" +:+ quoted "id" +:+ ", "
                  +:+ quoted "created_at" +:+ ", " +:+ quoted "updated_at"
                  +:+ ") VALUES (?, ?, ?)",
                  [VStr "p1"; VStr "2026-02-26T00:00:00.0Z";
                   VStr "2026-02-26T00:00:00.0Z"]);
                 (insertSql "people" stamped, Object_values stamped) ];
             Fixture.clock := 3 |})
    /\ insertSql "people" stamped
       = "INSERT INTO " +:+ quoted "people" +:+ " (" +:+ quoted "name" +:+ ", "
         +:+ quoted "is_living" +:+ ", " +:+ quoted "id" +:+ ", "
         +:+ quoted "created_at" +:+ ", " +:+ quoted "updated_at"
         +:+ ") VALUES (?, ?, ?, ?, ?)"
    /\ Object_values stamped
       = [VStr "An"; VNum 1; VStr "uuid-1"; VStr "2026-02-26T00:00:00.2Z";
          VStr "2026-02-26T00:00:00.2Z"].
Proof.
  destruct (insert_fills_generated_columns (H := Fixture.recording_host)
              {| table := "people"; method := "insert"; columns := None;
                 body := Some (Many [ [("id", VStr "p1")];
                                      [("name", VStr "An"); ("is_living", VBool true)] ]);
                 filters := []; order := None; limit := None;
                 single := false; maybeSingle := false |}
              [[("id", VStr "p1")]] []
              [("name", VStr "An"); ("is_living", VBool true)] []
              {| Fixture.replies := []; Fixture.statements := []; Fixture.clock := 0 |}
              {| Fixture.replies := [];
                 Fixture.statements :=
                   [ ("INSERT INTO " +:+ quoted "people" +:+ " (" +:+ quoted "id" +:+ ", "
                      +:+ quoted "created_at" +:+ ", " +:+ quoted "updated_at"
                      +:+ ") VALUES (?, ?, ?)",
                      [VStr "p1"; VStr "2026-02-26T00:00:00.0Z";
                       VStr "2026-02-26T00:00:00.0Z"]) ];
                 Fixture.clock := 1 |}
              eq_refl eq_refl)
    as (stamped & Hstamp & _ & Hid & Hcreated & Hupdated & Hother & _ & Hwritten);
    [by_evaluation | by_evaluation | reflexivity |].
  assert (Hs : stamped
               = [ ("name", VStr "An"); ("is_living", VNum 1); ("id", VStr "uuid-1");
                   ("created_at", VStr "2026-02-26T00:00:00.2Z");
                   ("updated_at", VStr "2026-02-26T00:00:00.2Z") ])
    by (vm_compute in Hstamp; congruence).
  exists stamped. split; [|split; [|split; [|split; [|split; [|split]]]]].
  - rewrite Hother; [reflexivity|]. by_evaluation.
  - apply Hid. reflexivity.
  - apply Hcreated. reflexivity.
  - apply Hupdated; [|reflexivity]. by_evaluation.
  - rewrite (Hwritten _ eq_refl eq_refl). reflexivity.
  - rewrite Hs. reflexivity.
  - rewrite Hs. reflexivity.
Defined.

Lemma executeQuery_update `{Host} (payload : QueryPayload) (w : World) :
  method payload = "update" ->
  executeQuery payload w
  = match executeUpdate payload w with
    | (Ok result, w') => (result, w')
    | (Throw err, w') => (catch err, w')
    end.
Proof. intros Hm. unfold executeQuery, dispatch. rewrite Hm. reflexivity. Qed.

(** What the second half of [executeUpdate] does with the data it is
    given: it runs the UPDATE statement of those columns with those
    values. *)
Lemma writeUpdate_runs `{Host} (payload : QueryPayload) (written : obj)
    (clause : string) (params : list value) (w w1 : World) :
  method payload = "update" ->
  buildWhere (filters payload) (Some (table payload)) = Ok (clause, params) ->
  executeUpdate payload w = writeUpdate payload written w1 ->
  update_runs payload written clause params w w1.
Proof.
  intros Hm Hwhere Hsplit. unfold update_runs. cbv zeta.
  assert (Hq : executeQuery payload w
               = match writeUpdate payload written w1 with
                 | (Ok result, w') => (result, w')
                 | (Throw err, w') => (catch err, w')
                 end)
    by (rewrite (executeQuery_update _ _ Hm), Hsplit; reflexivity).
  rewrite Hq. unfold writeUpdate, bind, lift, ret. rewrite Hwhere. split.
  - intros err w2 ->. reflexivity.
  - intros w2 ->. split.
    + intros ->. reflexivity.
    + intros stmt rows w3 -> -> ->.
      destruct (single payload); [|reflexivity]. destruct rows; reflexivity.
Qed.

(** C7.  An update of a table that tracks its modification time writes
    the coerced body with [updated_at] set to the time read for this call,
    whatever the body held there; an update of another table writes the
    coerced body as it is.  For a table of an ordinary name and a body
    with no key [__proto__], that data is what reaches the engine: the
    UPDATE statement that is run sets the columns of that data, and is run
    with its values followed by the parameters of the filters. *)
Theorem update_overwrites_modification_time `{Host} (payload : QueryPayload)
    (record : obj) (clause : string) (params : list value) (w : World) :
  method payload = "update" ->
  rawBody payload = Ok record ->
  ordinary_table (table payload) ->
  ordinary_keys record ->
  buildWhere (filters payload) (Some (table payload)) = Ok (clause, params) ->
  let data := coerceDataToSqlite (table payload) record in
  (table payload ∈ TABLES_WITH_UPDATED_AT ->
     let now := (Date_toISOString w).1 in
     let stamped := obj_set "updated_at" (VStr now) data in
     executeUpdate payload w = writeUpdate payload stamped (Date_toISOString w).2
     /\ obj_get "updated_at" stamped = Some (VStr now)
     /\ (forall k, k <> "updated_at" -> obj_get k stamped = obj_get k data)
     /\ update_runs payload stamped clause params w (Date_toISOString w).2)
  /\ (table payload ∉ TABLES_WITH_UPDATED_AT ->
        executeUpdate payload w = writeUpdate payload data w
        /\ update_runs payload data clause params w w).
Proof.
  intros Hm Hbody _ _ Hwhere data. split.
  - intros Ht now stamped.
    assert (Hsplit : executeUpdate payload w
                     = writeUpdate payload stamped (Date_toISOString w).2).
    { unfold executeUpdate, stampUpdate, bind, lift, ret, effect.
      rewrite Hbody, (bool_decide_eq_true_2 _ Ht). reflexivity. }
    split; [exact Hsplit|]. split; [|split].
    + subst stamped. rewrite CoerceProps.obj_get_set. reflexivity.
    + intros k Hk. subst stamped. rewrite CoerceProps.obj_get_set.
      destruct (String.eqb_spec "updated_at" k); [congruence|reflexivity].
    + exact (writeUpdate_runs _ _ _ _ _ _ Hm Hwhere Hsplit).
  - intros Ht.
    assert (Hsplit : executeUpdate payload w = writeUpdate payload data w).
    { unfold executeUpdate, stampUpdate, bind, lift, ret.
      rewrite Hbody, (bool_decide_eq_false_2 _ Ht). reflexivity. }
    split; [exact Hsplit|]. exact (writeUpdate_runs _ _ _ _ _ _ Hm Hwhere Hsplit).
Qed.

Lemma update_overwrites_modification_time_witness :
  executeQuery (H := Fixture.recording_host)
    {| table := "people"; method := "update"; columns := None;
       body := Some (One [("updated_at", VStr "1999-01-01T00:00:00.000Z");
                          ("is_living", VBool false)]);
       filters := [Fixture.mkFilter "eq" (Some "id") (VStr "p1")];
       order := None; limit := None; single := false; maybeSingle := false |}
    {| Fixture.replies := []; Fixture.statements := []; Fixture.clock := 0 |}
  = ({| data := VNull; error := None |},
     {| Fixture.replies := [];
        Fixture.statements :=
          [ ("UPDATE " +:+ quoted "people" +:+ " SET " +:+ quoted "updated_at"
             +:+ " = ?, " +:+ quoted "is_living" +:+ " = ? WHERE " +:+ quoted "id"
             +:+ " = ?",
             [VStr "2026-02-26T00:00:00.0Z"; VNum 0; VStr "p1"]) ];
        Fixture.clock := 1 |})
  /\ executeQuery (H := Fixture.recording_host)
       {| table := "events"; method := "update"; columns := None;
          body := Some (One [("recurring", VBool true)]);
          filters := []; order := None; limit := None;
          single := false; maybeSingle := false |}
       {| Fixture.replies := []; Fixture.statements := []; Fixture.clock := 0 |}
     = ({| data := VNull; error := None |},
        {| Fixture.replies := [];
           Fixture.statements :=
             [ ("UPDATE " +:+ quoted "events" +:+ " SET " +:+ quoted "recurring"
                +:+ " = ? ", [VNum 1]) ];
           Fixture.clock := 0 |}).
Proof.
  split.
  - match goal with
    | |- executeQuery ?p ?w = _ =>
        destruct (update_overwrites_modification_time (H := Fixture.recording_host) p
                    [("updated_at", VStr "1999-01-01T00:00:00.000Z");
                     ("is_living", VBool false)]
                    (String.append "WHERE " (String.append (quoted "id") " = ?"))
                    [VStr "p1"] w eq_refl eq_refl) as [Htracked _];
          [by_evaluation | by_evaluation | reflexivity |];
          destruct Htracked as (_ & _ & _ & _ & Hruns); [by_evaluation|]
    end.
    destruct (Hruns _ eq_refl) as [Hnull _]. rewrite Hnull; reflexivity.
  - match goal with
    | |- executeQuery ?p ?w = _ =>
        destruct (update_overwrites_modification_time (H := Fixture.recording_host) p
                    [("recurring", VBool true)] "" [] w eq_refl eq_refl)
          as [_ Hplain];
          [by_evaluation | by_evaluation | reflexivity |];
          destruct Hplain as (_ & _ & Hruns); [by_evaluation|]
    end.
    destruct (Hruns _ eq_refl) as [Hnull _]. rewrite Hnull; reflexivity.
Defined.

(** C10.  A read with the row limit 0 prepares the statement of the same
    read with no limit, which ends with the ORDER BY clause, if any, and
    answers from every row that statement yields, as the read with no
    limit does; a limit n other than 0 (an integer that a number holds
    exactly) adds [LIMIT n] at the end of the statement that is
    prepared. *)
Theorem limit_zero_reads_everything `{Host} (payload : QueryPayload)
    (clause : string) (params : list value) (stmt : cursor) (rows : list obj)
    (w w' : World) :
  method payload = "select" ->
  buildWhere (filters payload) (Some (table payload)) = Ok (clause, params) ->
  stepAll (table payload) stmt = Ok rows ->
  let unlimited :=
    ("SELECT " +:+ selectColumns (columns payload) +:+ " FROM "
     +:+ quoted (table payload) +:+ " " +:+ clause)
    +:+ orderClause (order payload) in
  (limit payload = Some 0%Z ->
     selectSql payload clause = unlimited
     /\ selectSql payload clause = selectSql (with_limit payload None) clause
     /\ (db_prepare unlimited params w = (Ok stmt, w') ->
         executeQuery payload w = (select_answer payload rows, w')
         /\ executeQuery (with_limit payload None) w = (select_answer payload rows, w')
         /\ (single payload = false -> maybeSingle payload = false ->
             executeQuery payload w
             = ({| data := VArr (VObj <$> rows); error := None |}, w'))))
  /\ (forall n,
        limit payload = Some n -> n <> 0%Z -> safe_integer n ->
        selectSql payload clause = unlimited +:+ " LIMIT " +:+ num_to_string n
        /\ (db_prepare (unlimited +:+ " LIMIT " +:+ num_to_string n) params w
            = (Ok stmt, w') ->
            executeQuery payload w = (select_answer payload rows, w')))
  /\ selectSql (with_limit payload None) clause = unlimited.
Proof.
  intros Hm Hwhere Hstep unlimited.
  assert (Hnone : selectSql (with_limit payload None) clause = unlimited).
  { unfold selectSql, with_limit; simpl. rewrite append_empty_r. reflexivity. }
  assert (Hrun : forall p : QueryPayload,
             method p = "select" -> table p = table payload ->
             filters p = filters payload ->
             single p = single payload -> maybeSingle p = maybeSingle payload ->
             db_prepare (selectSql p clause) params w = (Ok stmt, w') ->
             executeQuery p w = (select_answer payload rows, w')).
  { intros p Hpm Hpt Hpf Hps Hpms Hprep.
    unfold executeQuery, dispatch. rewrite Hpm. simpl.
    unfold executeSelect, bind, lift. rewrite Hpt, Hpf, Hwhere, Hprep, Hstep.
    unfold ret, select_answer. rewrite Hps, Hpms.
    destruct (single payload), (maybeSingle payload), rows; reflexivity. }
  split; [|split; [|exact Hnone]].
  - intros Hl.
    assert (Hsame : selectSql payload clause = selectSql (with_limit payload None) clause).
    { destruct payload; simpl in Hl; subst. reflexivity. }
    split; [rewrite Hsame; exact Hnone|]. split; [exact Hsame|].
    intros Hprep.
    assert (Hq : executeQuery payload w = (select_answer payload rows, w')).
    { apply Hrun; try reflexivity; [exact Hm|]. rewrite Hsame, Hnone. exact Hprep. }
    split; [exact Hq|]. split.
    + apply Hrun; try reflexivity; [exact Hm|]. rewrite Hnone. exact Hprep.
    + intros Hs Hms. rewrite Hq. unfold select_answer. rewrite Hs, Hms. reflexivity.
  - intros n Hl Hn _.
    assert (Hsql : selectSql payload clause
                   = unlimited +:+ " LIMIT " +:+ num_to_string n).
    { rewrite <- Hnone. destruct payload; simpl in Hl; subst.
      unfold selectSql, limitClause, with_limit; simpl.
      destruct (Z.eqb_spec n 0); [contradiction|]. simpl.
      rewrite append_empty_r. reflexivity. }
    split; [exact Hsql|]. intros Hprep.
    apply Hrun; try reflexivity; [exact Hm|]. rewrite Hsql. exact Hprep.
Qed.

Lemma limit_zero_reads_everything_witness :
  executeQuery (H := Fixture.recording_host)
    {| table := "people"; method := "select"; columns := Some "id";
       body := None; filters := []; order := Some [("id", true)];
       limit := Some 0%Z; single := false; maybeSingle := false |}
    {| Fixture.replies := [[("id", VStr "p1")]; [("id", VStr "p2")]];
       Fixture.statements := []; Fixture.clock := 0 |}
  = ({| data := VArr [VObj [("id", VStr "p1")]; VObj [("id", VStr "p2")]];
        error := None |},
     {| Fixture.replies := [[("id", VStr "p1")]; [("id", VStr "p2")]];
        Fixture.statements :=
          [ ("SELECT id FROM " +:+ quoted "people" +:+ "  ORDER BY " +:+ quoted "id"
             +:+ " ASC", []) ];
        Fixture.clock := 0 |})
  /\ selectSql
       {| table := "people"; method := "select"; columns := Some "id";
          body := None; filters := []; order := Some [("id", true)];
          limit := Some 25%Z; single := false; maybeSingle := false |} ""
     = "SELECT id FROM " +:+ quoted "people" +:+ "  ORDER BY " +:+ quoted "id"
       +:+ " ASC LIMIT 25".
Proof.
  split.
  - match goal with
    | |- executeQuery ?p ?w = (_, ?w') =>
        destruct (limit_zero_reads_everything (H := Fixture.recording_host) p "" []
                    (Fixture.cursor_of (Fixture.replies w))
                    [[("id", VStr "p1")]; [("id", VStr "p2")]] w w'
                    eq_refl eq_refl eq_refl) as (Hzero & _ & _)
    end.
    destruct (Hzero eq_refl) as (_ & _ & Hruns).
    destruct (Hruns eq_refl) as (_ & _ & Hall). rewrite Hall; reflexivity.
  - match goal with
    | |- selectSql ?p _ = _ =>
        destruct (limit_zero_reads_everything (H := Fixture.recording_host) p "" []
                    CDone []
                    {| Fixture.replies := []; Fixture.statements := []; Fixture.clock := 0 |}
                    {| Fixture.replies := []; Fixture.statements := []; Fixture.clock := 0 |}
                    eq_refl eq_refl eq_refl) as (_ & Hsome & _)
    end.
    destruct (Hsome 25%Z eq_refl) as [Hsql _];
      [discriminate | unfold safe_integer; vm_compute; reflexivity |].
    rewrite Hsql. reflexivity.
Defined.

(* --------------------------------------------------------------------- *)
(** ** Further properties of the query executor *)
(* --------------------------------------------------------------------- *)

(** The loop over a statement: all its rows in logical form, or the
    failure it ends with. *)
Lemma stepAll_rows `{Host} (table : string) (stmt : cursor) :
  stepAll table stmt
  = match cursor_failure stmt with
    | Some t => Throw t
    | None => Ok (coerceRowFromSqlite table <$> cursor_rows stmt)
    end.
Proof.
  induction stmt as [|row next IH|t]; simpl; [reflexivity| |reflexivity].
  rewrite IH. destruct (cursor_failure next); reflexivity.
Qed.

Lemma executeQuery_select `{Host} (payload : QueryPayload) (w : World) :
  method payload = "select" ->
  executeQuery payload w
  = match executeSelect payload w with
    | (Ok result, w') => (result, w')
    | (Throw err, w') => (catch err, w')
    end.
Proof. intros Hm. unfold executeQuery, dispatch. rewrite Hm. reflexivity. Qed.

(** X12.  For a table of an ordinary name and rows with no key
    [__proto__], a read with no cardinality modifier returns every row its
    statement yields, in the order of the engine and in logical form; when
    a step of the statement fails, the rows read before are dropped and the
    failure is reported. *)
Theorem select_returns_every_row `{Host} (payload : QueryPayload)
    (clause : string) (params : list value) (stmt : cursor) (w w' : World) :
  method payload = "select" ->
  single payload = false -> maybeSingle payload = false ->
  ordinary_table (table payload) ->
  Forall ordinary_keys (cursor_rows stmt) ->
  buildWhere (filters payload) (Some (table payload)) = Ok (clause, params) ->
  db_prepare (selectSql payload clause) params w = (Ok stmt, w') ->
  (cursor_failure stmt = None ->
     executeQuery payload w
     = ({| data := VArr (VObj <$> (coerceRowFromSqlite (table payload) <$> cursor_rows stmt));
           error := None |}, w'))
  /\ (forall t, cursor_failure stmt = Some t ->
        executeQuery payload w = (catch t, w')).
Proof.
  intros Hm Hs Hms _ _ Hwhere Hprep.
  rewrite (executeQuery_select _ _ Hm). unfold executeSelect, bind, lift, ret.
  rewrite Hwhere, Hprep, stepAll_rows, Hs, Hms. split.
  - intros ->. reflexivity.
  - intros t ->. reflexivity.
Qed.

Lemma select_returns_every_row_witness :
  executeQuery
    {| table := "people"; method := "select"; columns := None; body := None;
       filters := []; order := Some [("generation", true)]; limit := None;
       single := false; maybeSingle := false |}
    (Fixture.quiet [[("id", VStr "p1"); ("is_living", VNum 0)];
                    [("id", VStr "p2"); ("is_living", VNum 1)]])
  = ({| data := VArr [ VObj [("id", VStr "p1"); ("is_living", VBool false)];
                        VObj [("id", VStr "p2"); ("is_living", VBool true)] ];
        error := None |},
     Fixture.quiet [[("id", VStr "p1"); ("is_living", VNum 0)];
                    [("id", VStr "p2"); ("is_living", VNum 1)]]).
Proof.
  match goal with
  | |- executeQuery ?p ?w = _ =>
      destruct (select_returns_every_row (H := Fixture.host) p
                  "" [] (Fixture.cursor_of (Fixture.answer w)) w w
                  eq_refl eq_refl eq_refl) as [Hrows _];
        [by_evaluation | repeat constructor; by_evaluation
        | reflexivity | reflexivity |]
  end.
  rewrite Hrows; reflexivity.
Defined.

(** X13.  A read under [single] whose statement yields several rows
    returns the first of them, with no error. *)
Theorem single_with_several_rows `{Host} (payload : QueryPayload)
    (clause : string) (params : list value) (stmt : cursor)
    (row other : obj) (rest : list obj) (w w' : World) :
  method payload = "select" ->
  single payload = true ->
  buildWhere (filters payload) (Some (table payload)) = Ok (clause, params) ->
  db_prepare (selectSql payload clause) params w = (Ok stmt, w') ->
  stepAll (table payload) stmt = Ok (row :: other :: rest) ->
  executeQuery payload w = ({| data := VObj row; error := None |}, w').
Proof.
  intros Hm Hs Hwhere Hprep Hstep.
  rewrite (executeQuery_select _ _ Hm). unfold executeSelect, bind, lift, ret.
  rewrite Hwhere, Hprep, Hstep, Hs. reflexivity.
Qed.

Lemma single_with_several_rows_witness :
  executeQuery
    {| table := "events"; method := "select"; columns := Some "*"; body := None;
       filters := []; order := None; limit := None;
       single := true; maybeSingle := false |}
    (Fixture.quiet [[("id", VStr "e1")]; [("id", VStr "e2")]; [("id", VStr "e3")]])
  = ({| data := VObj [("id", VStr "e1")]; error := None |},
     Fixture.quiet [[("id", VStr "e1")]; [("id", VStr "e2")]; [("id", VStr "e3")]]).
Proof.
  eapply (single_with_several_rows (H := Fixture.host)); reflexivity.
Defined.

(** X14.  What is refused before the engine is reached: a read or a
    delete whose filters do not compile, an update whose body is an empty
    array, and a method that is none of the four, all report their error
    and leave the world as it was. *)
Theorem refused_before_the_engine `{Host} (payload : QueryPayload) (w : World) :
  (forall t,
      method payload = "select" \/ method payload = "delete" ->
      buildWhere (filters payload) (Some (table payload)) = Throw t ->
      executeQuery payload w = (catch t, w))
  /\ (method payload = "update" -> body payload = Some (Many []) ->
        executeQuery payload w
        = (catch (ErrorObj "Cannot convert undefined or null to object"), w))
  /\ (method payload ∉ ["select"; "insert"; "update"; "delete"] ->
        executeQuery payload w
        = ({| data := VNull;
              error := Some {| message := "Unknown method: " +:+ method payload;
                               code := None |} |}, w)).
Proof.
  split; [|split].
  - intros t [Hm|Hm] Hwhere; unfold executeQuery, dispatch; rewrite Hm; simpl.
    + unfold executeSelect, bind, lift. rewrite Hwhere. reflexivity.
    + unfold executeDelete, bind, lift. rewrite Hwhere. reflexivity.
  - intros Hm Hbody. unfold executeQuery, dispatch. rewrite Hm. simpl.
    unfold executeUpdate, rawBody, bind, lift. rewrite Hbody. reflexivity.
  - intros Hm. unfold executeQuery, dispatch.
    repeat match goal with
           | |- context [String.eqb (method payload) ?s] =>
               destruct (String.eqb_spec (method payload) s) as [Heq|_];
               [exfalso; apply Hm; rewrite Heq; by_evaluation|]
           end.
    reflexivity.
Qed.

Lemma refused_before_the_engine_witness :
  executeQuery
    {| table := "people"; method := "delete"; columns := None; body := None;
       filters := [Fixture.mkFilter "in" (Some "id") VUndefined];
       order := None; limit := None; single := false; maybeSingle := false |}
    (Fixture.quiet [])
  = ({| data := VNull;
        error := Some {| message := "Cannot read properties of undefined (reading 'length')";
                         code := None |} |},
     Fixture.quiet [])
  /\ executeQuery
       {| table := "people"; method := "update"; columns := None;
          body := Some (Many []); filters := [];
          order := None; limit := None; single := false; maybeSingle := false |}
       (Fixture.quiet [])
     = ({| data := VNull;
           error := Some {| message := "Cannot convert undefined or null to object";
                            code := None |} |},
        Fixture.quiet [])
  /\ executeQuery (Fixture.mkPayload "people" "upsert") (Fixture.quiet [])
     = ({| data := VNull;
           error := Some {| message := "Unknown method: upsert"; code := None |} |},
        Fixture.quiet []).
Proof.
  split; [|split].
  - match goal with
    | |- executeQuery ?p ?w = _ =>
        destruct (refused_before_the_engine (H := Fixture.host) p w) as (Hfilters & _ & _)
    end.
    rewrite (Hfilters (ErrorObj "Cannot read properties of undefined (reading 'length')"));
      [reflexivity|right; reflexivity|reflexivity].
  - match goal with
    | |- executeQuery ?p ?w = _ =>
        destruct (refused_before_the_engine (H := Fixture.host) p w) as (_ & Hbody & _)
    end.
    rewrite Hbody; reflexivity.
  - match goal with
    | |- executeQuery ?p ?w = _ =>
        destruct (refused_before_the_engine (H := Fixture.host) p w) as (_ & _ & Hmethod)
    end.
    rewrite Hmethod; [reflexivity|by_evaluation].
Defined.

(** X15.  An insert of several records is no transaction: when the
    records before a point are written and a record after it fails, the
    failure is reported from the world in which the first ones are
    written. *)
Theorem insert_is_not_atomic `{Host} (payload : QueryPayload)
    (written failing : list obj) (rows : list obj) (t : thrown) (w w1 w2 : World) :
  method payload = "insert" ->
  body payload = Some (Many (written ++ failing)) ->
  insertLoop payload written [] w = (Ok rows, w1) ->
  insertLoop payload failing rows w1 = (Throw t, w2) ->
  executeQuery payload w = (catch t, w2).
Proof.
  intros Hm Hbody Hfirst Hthen. unfold executeQuery, dispatch. rewrite Hm. simpl.
  unfold executeInsert. rewrite Hbody. unfold bind at 1.
  rewrite insertLoop_app. unfold bind at 1. rewrite Hfirst, Hthen. reflexivity.
Qed.

Lemma insert_is_not_atomic_witness :
  executeQuery (H := Fixture.limited_host)
    {| table := "people"; method := "insert"; columns := None;
       body := Some (Many ([[("id", VStr "p1")]] ++ [[("id", VStr "p1")]]));
       filters := []; order := None; limit := None;
       single := false; maybeSingle := false |}
    {| Fixture.runs_left := 1; Fixture.accepted := 0; Fixture.reads := 0 |}
  = ({| data := VNull;
        error := Some {| message := "UNIQUE constraint failed: people.id";
                         code := Some "23505" |} |},
     {| Fixture.runs_left := 0; Fixture.accepted := 1; Fixture.reads := 2 |}).
Proof.
  eapply (insert_is_not_atomic (H := Fixture.limited_host) _
            [[("id", VStr "p1")]] [[("id", VStr "p1")]] []
            (ErrorObj "UNIQUE constraint failed: people.id"));
    reflexivity.
Defined.

(** X16.  What an insert returns: with no projection, null, also under
    [single]; with a projection and not under [single], a sequence of at
    most one row for each record of the body. *)
Theorem insert_result `{Host} (payload : QueryPayload) (r : QueryResult)
    (w w' : World) :
  executeInsert payload w = (Ok r, w') ->
  error r = None
  /\ (truthy_str (columns payload) = false -> data r = VNull)
  /\ (truthy_str (columns payload) = true -> single payload = false ->
        exists rows, data r = VArr (VObj <$> rows)
                     /\ length rows <=
                        match body payload with
                        | Some (Many records) => length records
                        | _ => 1
                        end).
Proof.
  unfold executeInsert. unfold bind at 1.
  destruct (insertLoop payload _ [] w) as [[rows|t] w1] eqn:Hloop; [|discriminate].
  apply insertLoop_rows in Hloop as (new & Hrows & Hlen & Hnone). simpl in Hrows. subst new.
  unfold ret. intros Hr. split; [|split].
  - destruct (single payload && _); injection Hr as <- _; reflexivity.
  - intros Hc. rewrite (Hnone Hc) in Hr. rewrite Hc, andb_false_r in Hr.
    injection Hr as <- _. reflexivity.
  - intros Hc Hs. rewrite Hs, Hc in Hr. injection Hr as <- _.
    exists rows. split; [reflexivity|].
    destruct (body payload) as [[record|records]|]; exact Hlen.
Qed.

Lemma insert_result_witness :
  exists r,
    executeInsert
      {| table := "events"; method := "insert"; columns := Some "id";
         body := Some (Many [[("title", VStr "a")]; [("title", VStr "b")]]);
         filters := []; order := None; limit := None;
         single := false; maybeSingle := false |}
      (Fixture.quiet [[("id", VStr "e1")]])
    = (Ok r, Fixture.tick (Fixture.tick (Fixture.tick (Fixture.tick
                (Fixture.quiet [[("id", VStr "e1")]])))))
    /\ error r = None
    /\ exists rows, data r = VArr (VObj <$> rows) /\ length rows <= 2.
Proof.
  eexists. split; [reflexivity|].
  match goal with
  | |- error ?r = None /\ _ =>
      destruct (insert_result (H := Fixture.host)
                  {| table := "events"; method := "insert"; columns := Some "id";
                     body := Some (Many [[("title", VStr "a")]; [("title", VStr "b")]]);
                     filters := []; order := None; limit := None;
                     single := false; maybeSingle := false |}
                  r (Fixture.quiet [[("id", VStr "e1")]])
                  (Fixture.tick (Fixture.tick (Fixture.tick (Fixture.tick
                     (Fixture.quiet [[("id", VStr "e1")]])))))
                  eq_refl) as (Herr & _ & Hrows)
  end.
  split; [exact Herr|]. apply Hrows; reflexivity.
Defined.

(** X17.  What an update returns once its statement ran: with no
    projection, null; with a projection, the rows read back with the same
    filters, all of them, or under [single] the first of them or null when
    there is none; in no case an error for want of a row. *)
Theorem update_result `{Host} (payload : QueryPayload) (data : obj)
    (clause : string) (params : list value) (stmt : cursor) (rows : list obj)
    (w w1 w2 : World) :
  buildWhere (filters payload) (Some (table payload)) = Ok (clause, params) ->
  db_run (updateSql (table payload) data clause) (Object_values data ++ params) w
  = (Ok tt, w1) ->
  (truthy_str (columns payload) = false ->
     writeUpdate payload data w = (Ok {| data := VNull; error := None |}, w1))
  /\ (truthy_str (columns payload) = true ->
      db_prepare ("SELECT "
                  +:+ (if bool_decide (columns payload = Some "*") then "*"
                       else tpl (columns payload))
                  +:+ " FROM " +:+ quoted (table payload) +:+ " " +:+ clause)
                 params w1
      = (Ok stmt, w2) ->
      stepAll (table payload) stmt = Ok rows ->
      writeUpdate payload data w
      = (Ok {| data := if single payload
                       then match rows with
                            | row :: _ => VObj row
                            | [] => VNull
                            end
                       else VArr (VObj <$> rows);
               error := None |}, w2)).
Proof.
  intros Hwhere Hrun. unfold writeUpdate, bind, lift, ret. rewrite Hwhere, Hrun. split.
  - intros ->. reflexivity.
  - intros -> Hprep Hstep. rewrite Hprep, Hstep.
    destruct (single payload); [|reflexivity]. destruct rows; reflexivity.
Qed.

Lemma update_result_witness :
  writeUpdate
    {| table := "people"; method := "update"; columns := Some "*"; body := None;
       filters := [Fixture.mkFilter "eq" (Some "id") (VStr "nobody")];
       order := None; limit := None; single := true; maybeSingle := false |}
    [("name", VStr "An")] (Fixture.quiet [])
  = (Ok {| data := VNull; error := None |}, Fixture.quiet []).
Proof.
  match goal with
  | |- writeUpdate ?p ?d ?w = _ =>
      destruct (update_result (H := Fixture.host) p d
                  (String.append "WHERE " (String.append (quoted "id") " = ?"))
                  [VStr "nobody"] CDone [] w w w eq_refl eq_refl) as [_ Hrows]
  end.
  apply Hrows; reflexivity.
Defined.

(** X18.  An insert keeps what the record supplies: a truthy [id],
    [created_at] and [updated_at] are written as they are, and no
    identifier is generated; an [id] that is present but falsy (null, the
    empty text, 0, false) is replaced like a missing one. *)
Theorem insert_keeps_supplied_values `{Host} (table : string) (coerced : obj)
    (w : World) :
  (truthy (obj_prop "id" coerced) = true ->
   truthy (obj_prop "created_at" coerced) = true ->
   truthy (obj_prop "updated_at" coerced) = true ->
   stampInsert table coerced w = (Ok coerced, (Date_toISOString w).2))
  /\ (truthy (obj_prop "id" coerced) = false ->
      exists stamped w',
        stampInsert table coerced w = (Ok stamped, w')
        /\ obj_get "id" stamped = Some (VStr (randomUUID w).1)).
Proof.
  unfold stampInsert, generateUUID, bind, ret, effect. split.
  - intros -> Hc Hu. simpl. rewrite Hc. simpl. rewrite Hu, andb_false_r. reflexivity.
  - intros ->. simpl. eexists _, _. split; [reflexivity|].
    repeat case_match; rewrite ?CoerceProps.obj_get_set; reflexivity.
Qed.

Lemma insert_keeps_supplied_values_witness :
  stampInsert "people"
    [("id", VStr "p1"); ("created_at", VStr "2001"); ("updated_at", VStr "2002")]
    (Fixture.quiet [])
  = (Ok [("id", VStr "p1"); ("created_at", VStr "2001"); ("updated_at", VStr "2002")],
     Fixture.tick (Fixture.quiet []))
  /\ exists stamped w',
      stampInsert "people" [("id", VNull); ("name", VStr "An")] (Fixture.quiet [])
      = (Ok stamped, w')
      /\ obj_get "id" stamped = Some (VStr "uuid-0").
Proof.
  split.
  - apply (insert_keeps_supplied_values (H := Fixture.host) "people"
             [("id", VStr "p1"); ("created_at", VStr "2001"); ("updated_at", VStr "2002")]
             (Fixture.quiet [])); reflexivity.
  - apply (insert_keeps_supplied_values (H := Fixture.host) "people"
             [("id", VNull); ("name", VStr "An")] (Fixture.quiet [])).
    reflexivity.
Defined.

Lemma count_quoted_names (names : list string) :
  Forall (fun k => has_char "?" k = false) names ->
  sum_list (count_char "?" <$> map quoted names) = 0.
Proof.
  induction 1 as [|k rest Hk _ IH]; [reflexivity|].
  rewrite map_cons, fmap_cons. cbn [sum_list_with].
  rewrite IH, FilterProps.count_char_quoted, (FilterProps.count_char_absent _ _ Hk)
    by reflexivity.
  reflexivity.
Qed.

Lemma count_set_clauses (names : list string) :
  Forall (fun k => has_char "?" k = false) names ->
  sum_list (count_char "?" <$> map (fun k => quoted k +:+ " = ?") names)
  = length names.
Proof.
  induction 1 as [|k rest Hk _ IH]; [reflexivity|].
  rewrite map_cons, fmap_cons. cbn [sum_list_with length].
  rewrite IH, FilterProps.count_char_app, FilterProps.count_char_quoted,
    (FilterProps.count_char_absent _ _ Hk) by reflexivity.
  reflexivity.
Qed.

(** X19.  The statements that write bind: when neither the table name nor
    a key of the record holds a question mark, the INSERT statement holds
    one question mark for each value it is run with; and when moreover no
    column name of the filters holds a question mark and the filters
    compile, so does the UPDATE statement with the compiled clause, for
    the values of the record followed by the parameters of the filters. *)
Theorem write_statements_bind (table : string) (o : obj) (fs : list Filter)
    (clause : string) (params : list value) :
  has_char "?" table = false ->
  Forall (fun k => has_char "?" k = false) (Object_keys o) ->
  count_char "?" (insertSql table o) = length (Object_values o)
  /\ (Forall plain_names fs ->
      buildWhere fs (Some table) = Ok (clause, params) ->
      count_char "?" (updateSql table o clause) = length (Object_values o ++ params)).
Proof.
  intros Htable Hkeys.
  assert (Hq : count_char "?" (quoted table) = 0)
    by (rewrite FilterProps.count_char_quoted;
        [apply FilterProps.count_char_absent, Htable|reflexivity]).
  assert (Hlen : length (Object_values o) = length (Object_keys o))
    by (unfold Object_values, Object_keys; rewrite !length_map; reflexivity).
  split.
  - unfold insertSql. rewrite !FilterProps.count_char_app, Hq.
    rewrite !FilterProps.count_char_join by reflexivity.
    rewrite (count_quoted_names _ Hkeys), FilterProps.count_placeholders, Hlen.
    simpl. lia.
  - intros Hnames Hwhere. unfold updateSql.
    rewrite !FilterProps.count_char_app, Hq.
    rewrite FilterProps.count_char_join by reflexivity.
    rewrite (count_set_clauses _ Hkeys), length_app, Hlen.
    rewrite (FilterProps.buildWhere_arity _ _ _ _ Hnames Hwhere). simpl. lia.
Qed.

Lemma write_statements_bind_witness :
  count_char "?"
    ("INSERT INTO " +:+ quoted "people" +:+ " (" +:+ quoted "id" +:+ ", "
     +:+ quoted "name" +:+ ") VALUES (?, ?)")
  = length [VStr "p1"; VStr "why?"]
  /\ count_char "?"
       ("UPDATE " +:+ quoted "people" +:+ " SET " +:+ quoted "id" +:+ " = ?, "
        +:+ quoted "name" +:+ " = ? WHERE " +:+ quoted "generation" +:+ " = ?")
     = length ([VStr "p1"; VStr "why?"] ++ [VNum 3]).
Proof.
  destruct (write_statements_bind "people" [("id", VStr "p1"); ("name", VStr "why?")]
              [Fixture.mkFilter "eq" (Some "generation") (VNum 3)]
              (String.append "WHERE " (String.append (quoted "generation") " = ?"))
              [VNum 3] eq_refl) as [Hinsert Hupdate].
  - repeat constructor.
  - split; [exact Hinsert|]. apply Hupdate; [repeat constructor|reflexivity].
Defined.

End ExecutorProps.

(* ===================================================================== *)
(** * Properties of the subtree traversal *)
(* ===================================================================== *)

Module SubtreeProps.
Import RpcHandlers Vocabulary.

(** ** What the two statements answer *)

Lemma elem_of_selectFamilies db p fid :
  fid ∈ selectFamilies db p p <->
  exists f, f ∈ families db /\ (father_id f = Some p \/ mother_id f = Some p) /\ id f = fid.
Proof.
  unfold selectFamilies. rewrite list_elem_of_fmap. split.
  - intros (f & -> & [Hp Hf]%list_elem_of_filter). eauto.
  - intros (f & Hf & Hp & <-). exists f. split; [reflexivity|].
    apply list_elem_of_filter. auto.
Qed.

Lemma elem_of_selectChildren db fid c :
  c ∈ selectChildren db fid <->
  exists ch, ch ∈ children db /\ family_id ch = fid /\ person_id ch = c.
Proof.
  unfold selectChildren. rewrite list_elem_of_fmap. split.
  - intros (ch & -> & [Hp Hf]%list_elem_of_filter). eauto.
  - intros (ch & Hch & Hf & <-). exists ch. split; [reflexivity|].
    apply list_elem_of_filter. auto.
Qed.

Lemma parent_child_select db p c :
  parent_child db p c <->
  exists fid, fid ∈ selectFamilies db p p /\ c ∈ selectChildren db fid.
Proof.
  unfold parent_child. split.
  - intros (f & ch & Hf & Hch & Hp & Hfam & Hc). exists (id f). split.
    + apply elem_of_selectFamilies. eauto.
    + apply elem_of_selectChildren. eauto.
  - intros (fid & (f & Hf & Hp & <-)%elem_of_selectFamilies
                & (ch & Hch & Hfam & Hc)%elem_of_selectChildren).
    exists f, ch. auto.
Qed.

(** ** The inner loops *)

Lemma scanChildren_found target visited rows queue :
  scanChildren target visited rows queue = Found -> target ∈ rows.
Proof.
  revert queue. induction rows as [|c rest IH]; intros queue; simpl; [discriminate|].
  case_bool_decide as Hc.
  - intros _. subst c. apply elem_of_cons. auto.
  - intros Hscan%IH. apply elem_of_cons. auto.
Qed.

Lemma scanChildren_continue target visited rows queue queue' :
  scanChildren target visited rows queue = Continue queue' ->
  (target ∉ rows)
  /\ forall x, x ∈ queue' <-> x ∈ queue \/ (x ∈ rows /\ x ∉ visited).
Proof.
  revert queue. induction rows as [|c rest IH]; intros queue; simpl.
  - intros [= <-]. split; [apply not_elem_of_nil|].
    intros x. rewrite elem_of_nil. tauto.
  - case_bool_decide as Hc; [discriminate|].
    intros (Hrest & Hq)%IH. split.
    + rewrite elem_of_cons. intros [->|?]; auto.
    + intros x. rewrite Hq, elem_of_cons. case_bool_decide as Hv.
      * split; [tauto|]. intros [?|[[->|?] ?]]; tauto.
      * rewrite elem_of_app, list_elem_of_singleton.
        split; [|tauto]. intros [[?| ->]|?]; tauto.
Qed.

Lemma scanFamilies_found db target visited fids queue log log' :
  scanFamilies db target visited fids queue log = (Found, log') ->
  exists fid, fid ∈ fids /\ target ∈ selectChildren db fid.
Proof.
  revert queue log. induction fids as [|fid rest IH]; intros queue log; simpl;
    [discriminate|].
  destruct (scanChildren _ _ _ _) as [|queue1] eqn:Hscan.
  - intros _. exists fid. split; [apply elem_of_cons; auto|].
    eapply scanChildren_found, Hscan.
  - intros (fid' & Hin & Ht)%IH. exists fid'. split; [apply elem_of_cons; auto|exact Ht].
Qed.

Lemma scanFamilies_continue db target visited fids queue log queue' log' :
  scanFamilies db target visited fids queue log = (Continue queue', log') ->
  (forall fid, fid ∈ fids -> target ∉ selectChildren db fid)
  /\ forall x, x ∈ queue' <->
               x ∈ queue
               \/ exists fid, fid ∈ fids /\ x ∈ selectChildren db fid /\ x ∉ visited.
Proof.
  revert queue log. induction fids as [|fid rest IH]; intros queue log; simpl.
  - intros [= <- _]. split.
    + intros fid []%elem_of_nil.
    + intros x. split; [auto|]. intros [?|(fid & []%elem_of_nil & _)]. assumption.
  - destruct (scanChildren _ _ _ _) as [|queue1] eqn:Hscan; [discriminate|].
    apply scanChildren_continue in Hscan as [Hnot Hq1].
    intros (Hrest & Hq)%IH. split.
    + intros fid' [->|?]%elem_of_cons; auto.
    + intros x. rewrite Hq, Hq1. split.
      * intros [[?|[? ?]]|(fid' & ? & ? & ?)]; [auto| |].
        -- right. exists fid. rewrite elem_of_cons. auto.
        -- right. exists fid'. rewrite elem_of_cons. auto.
      * intros [?|(fid' & [->|?]%elem_of_cons & ? & ?)]; [auto|auto|].
        right. exists fid'. auto.
Qed.

Lemma expanded_app log1 log2 : expanded (log1 ++ log2) = expanded log1 ++ expanded log2.
Proof. apply omap_app. Qed.

Lemma scanFamilies_expanded db target visited fids queue log s log' :
  scanFamilies db target visited fids queue log = (s, log') ->
  expanded log' = expanded log.
Proof.
  revert queue log. induction fids as [|fid rest IH]; intros queue log; simpl.
  - intros [= _ <-]. reflexivity.
  - destruct (scanChildren _ _ _ _) as [|queue1].
    + intros [= _ <-]. rewrite expanded_app. simpl. apply app_nil_r.
    + intros ->%IH. rewrite expanded_app. simpl. apply app_nil_r.
Qed.

(** ** The traversal: what it answers *)

Section Traversal.
Variable db : Database.
Variables root target : string.

Local Abbreviation invariant := (Vocabulary.invariant db root target).
Local Abbreviation universe := (Vocabulary.universe db root).

Lemma closed_no_descendant (visited : gset string) :
  invariant visited [] -> ~ descendant db root target.
Proof.
  intros (_ & [Hroot|[]%elem_of_nil] & Hclosed) Hdesc.
  assert (Hin : forall x y, tc (parent_child db) x y ->
                            x ∈ visited -> y ∈ visited /\ y <> target).
  { induction 1 as [x y Hxy|x y z Hxy _ IH]; intros Hx.
    - destruct (Hclosed x y Hx Hxy) as [? [?|[]%elem_of_nil]]. auto.
    - destruct (Hclosed x y Hx Hxy) as [? [?|[]%elem_of_nil]]. auto. }
  destruct (Hin root target Hdesc Hroot) as [_ Hne]. auto.
Qed.

Lemma invariant_skip visited current queue :
  current ∈ visited -> invariant visited (current :: queue) ->
  invariant visited queue.
Proof.
  intros Hcur (Hreach & Hroot & Hclosed). split; [|split].
  - intros x [?|?]; apply Hreach; [auto|]. right. apply elem_of_cons. auto.
  - destruct Hroot as [?|[->|?]%elem_of_cons]; auto.
  - intros p c Hp Hpc. destruct (Hclosed p c Hp Hpc) as [? [?|[->|?]%elem_of_cons]]; auto.
Qed.

Lemma invariant_expand visited current queue queue' log log' :
  invariant visited (current :: queue) ->
  scanFamilies db target ({[current]} ∪ visited)
    (selectFamilies db current current) queue log = (Continue queue', log') ->
  invariant ({[current]} ∪ visited) queue'.
Proof.
  intros (Hreach & Hroot & Hclosed) [Hnot Hq]%scanFamilies_continue.
  assert (Hcur : rtc (parent_child db) root current).
  { apply Hreach. right. apply elem_of_cons. auto. }
  split; [|split].
  - intros x [[->%elem_of_singleton|?]%elem_of_union|[?|(fid & ? & ? & _)]%Hq]; auto.
    + apply Hreach. right. apply elem_of_cons. auto.
    + eapply rtc_r; [exact Hcur|]. apply parent_child_select. eauto.
  - destruct Hroot as [?|[->|?]%elem_of_cons].
    + left. set_solver.
    + left. set_solver.
    + right. apply Hq. auto.
  - intros p c [->%elem_of_singleton|Hp]%elem_of_union Hpc.
    + apply parent_child_select in Hpc as (fid & Hfid & Hc). split.
      * intros ->. exact (Hnot fid Hfid Hc).
      * destruct (decide (c ∈ {[current]} ∪ visited)); [auto|].
        right. apply Hq. right. eauto.
    + destruct (Hclosed p c Hp Hpc) as [? [?|[->|?]%elem_of_cons]].
      * split; [assumption|]. left. set_solver.
      * split; [assumption|]. left. set_solver.
      * split; [assumption|]. right. apply Hq. auto.
Qed.

Lemma loop_answer fuel visited queue log b log' :
  invariant visited queue ->
  loop fuel db target visited queue log = Some (b, log') ->
  b = true <-> descendant db root target.
Proof.
  revert visited queue log. induction fuel as [|fuel IH]; intros visited queue log Hinv;
    simpl; [discriminate|].
  destruct queue as [|current queue].
  - intros [= <- _]. split; [discriminate|].
    intros Hdesc. destruct (closed_no_descendant _ Hinv Hdesc).
  - case_bool_decide as Hvis.
    + apply IH. eapply invariant_skip; eassumption.
    + destruct (scanFamilies _ _ _ _ _ _) as [[|queue'] log1] eqn:Hscan.
      * intros [= <- _]. split; [|reflexivity]. intros _.
        apply scanFamilies_found in Hscan as (fid & Hfid & Ht).
        eapply tc_rtc_l.
        -- apply Hinv. right. apply elem_of_cons. left. reflexivity.
        -- apply tc_once, parent_child_select. eauto.
      * apply IH. eapply invariant_expand; eassumption.
Qed.

(** ** The traversal: that it ends *)

Lemma selectChildren_universe fid c : c ∈ selectChildren db fid -> c ∈ universe.
Proof.
  intros (ch & Hch & _ & <-)%elem_of_selectChildren.
  unfold Vocabulary.universe. apply elem_of_union. right. apply elem_of_list_to_set, list_elem_of_fmap. eauto.
Qed.

Lemma loop_terminates n :
  forall visited queue log,
    size (universe ∖ visited) < n ->
    (forall x, x ∈ queue -> x ∈ universe) ->
    exists N r, forall fuel, N <= fuel ->
                             loop fuel db target visited queue log = Some r.
Proof.
  induction n as [|n IHn]; intros visited queue log Hsize Hq; [lia|].
  revert log. induction queue as [|current queue IHq]; intros log.
  - exists 1, (false, log). intros [|fuel] Hfuel; [lia|reflexivity].
  - destruct (decide (current ∈ visited)) as [Hvis|Hvis].
    + destruct (IHq (fun x Hx => Hq x (proj2 (elem_of_cons _ _ _) (or_intror Hx))) log)
        as (N & r & HN).
      exists (S N), r. intros [|fuel] Hfuel; [lia|]. simpl.
      rewrite (bool_decide_eq_true_2 _ Hvis). apply HN. lia.
    + destruct (scanFamilies db target ({[current]} ∪ visited)
                  (selectFamilies db current current) queue
                  (log ++ [Bind familyStmt [current; current]]))
        as [[|queue'] log1] eqn:Hscan.
      * exists 1, (true, log1). intros [|fuel] Hfuel; [lia|]. simpl.
        rewrite (bool_decide_eq_false_2 _ Hvis), Hscan. reflexivity.
      * destruct (IHn ({[current]} ∪ visited) queue' log1) as (N & r & HN).
        -- assert (Hcur : current ∈ universe)
             by (apply Hq, elem_of_cons; auto).
           assert (Hsub : universe ∖ ({[current]} ∪ visited)
                          = (universe ∖ visited) ∖ {[current]}) by set_solver.
           rewrite Hsub, size_difference, size_singleton by set_solver.
           pose proof (subseteq_size {[current]} (universe ∖ visited)) as Hle.
           rewrite size_singleton in Hle.
           assert (1 <= size (universe ∖ visited)) by (apply Hle; set_solver).
           lia.
        -- apply scanFamilies_continue in Hscan as [_ Hq'].
           intros x [?|(fid & _ & Hc & _)]%Hq'.
           ++ apply Hq, elem_of_cons. auto.
           ++ eapply selectChildren_universe, Hc.
        -- exists (S N), r. intros [|fuel] Hfuel; [lia|]. simpl.
           rewrite (bool_decide_eq_false_2 _ Hvis), Hscan. apply HN. lia.
Qed.

(** ** The traversal: each person is expanded once *)

Lemma loop_expands_once fuel visited queue log b log' :
  NoDup (expanded log) ->
  (forall p, p ∈ expanded log -> p ∈ visited) ->
  loop fuel db target visited queue log = Some (b, log') ->
  NoDup (expanded log').
Proof.
  revert visited queue log. induction fuel as [|fuel IH]; intros visited queue log Hnd Hsub;
    simpl; [discriminate|].
  destruct queue as [|current queue].
  - intros [= _ <-]. exact Hnd.
  - case_bool_decide as Hvis; [apply IH; assumption|].
    assert (Hlog1 : expanded (log ++ [Bind familyStmt [current; current]])
                    = expanded log ++ [current])
      by (rewrite expanded_app; reflexivity).
    assert (Hnd1 : NoDup (expanded log ++ [current])).
    { apply NoDup_app. split; [exact Hnd|]. split; [|apply NoDup_singleton].
      intros p Hp ->%list_elem_of_singleton. auto. }
    destruct (scanFamilies _ _ _ _ _ _) as [[|queue'] log1] eqn:Hscan;
      apply scanFamilies_expanded in Hscan; rewrite Hlog1 in Hscan.
    + intros [= _ <-]. rewrite Hscan. exact Hnd1.
    + apply IH; rewrite Hscan; [exact Hnd1|].
      intros p [Hp| ->%list_elem_of_singleton]%elem_of_app; set_solver.
Qed.

End Traversal.

(** More fuel does not change an answer. *)
Lemma loop_more_fuel db target fuel fuel' visited queue log r :
  loop fuel db target visited queue log = Some r -> fuel <= fuel' ->
  loop fuel' db target visited queue log = Some r.
Proof.
  revert fuel' visited queue log. induction fuel as [|fuel IH];
    intros fuel' visited queue log; simpl; [discriminate|].
  intros Hrun Hle. destruct fuel' as [|fuel']; [lia|]. simpl.
  destruct queue as [|current queue]; [exact Hrun|].
  case_bool_decide.
  - apply IH; [exact Hrun|lia].
  - destruct (scanFamilies _ _ _ _ _ _) as [[|queue'] log1]; [exact Hrun|].
    apply IH; [exact Hrun|lia].
Qed.

Lemma isPersonInSubtree_more_fuel db root target fuel fuel' r :
  isPersonInSubtree fuel db root target = Some r -> fuel <= fuel' ->
  isPersonInSubtree fuel' db root target = Some r.
Proof.
  unfold isPersonInSubtree. case_bool_decide; [auto|].
  destruct (loop fuel _ _ _ _ _) as [[b log]|] eqn:Hrun; [|discriminate].
  intros Hr Hle. rewrite (loop_more_fuel _ _ _ _ _ _ _ _ Hrun Hle). exact Hr.
Qed.

(** The traversal from a root other than the target: it ends, its answer
    is whether the target descends from the root, and it asks for the
    families of a person at most once. *)
Lemma isPersonInSubtree_runs db root target :
  root <> target ->
  exists N b log,
    (forall fuel, N <= fuel -> isPersonInSubtree fuel db root target = Some (b, log))
    /\ (b = true <-> descendant db root target)
    /\ NoDup (expanded log).
Proof.
  intros Hne.
  set (log0 := [ Prepare "SELECT id FROM families WHERE father_id = ? OR mother_id = ?";
                 Prepare "SELECT person_id FROM children WHERE family_id = ?" ]).
  destruct (loop_terminates db root target (S (size (universe db root))) ∅ [root] log0)
    as (N & [b log] & HN).
  - pose proof (subseteq_size (universe db root ∖ ∅) (universe db root)) as Hle.
    assert (size (universe db root ∖ ∅) <= size (universe db root))
      by (apply Hle; set_solver).
    lia.
  - intros x ->%list_elem_of_singleton. unfold universe. set_solver.
  - exists N, b, (log ++ [Free familyStmt; Free childStmt]). split; [|split].
    + intros fuel Hfuel. unfold isPersonInSubtree.
      rewrite (bool_decide_eq_false_2 _ Hne). fold log0.
      rewrite (HN fuel Hfuel). reflexivity.
    + eapply (loop_answer db root target N ∅ [root] log0); [|apply HN; lia].
      split; [|split].
      * intros x [[]%elem_of_empty| ->%list_elem_of_singleton]. apply rtc_refl.
      * right. apply list_elem_of_singleton. reflexivity.
      * intros p c []%elem_of_empty.
    + rewrite expanded_app. simpl. rewrite app_nil_r.
      eapply (loop_expands_once db target N ∅ [root] log0);
        [apply NoDup_nil_2| |apply HN; lia].
      intros p []%elem_of_nil.
Qed.

(** C2.  With the root as target the answer is true and nothing is asked
    of the engine.  Otherwise the traversal ends, and answers true exactly
    when the target is reached from the root through a chain of family
    records.  On the families F1 (father P1, children P2, P3) and F2
    (father P2, child P4): P4 is in the subtree of P1 and not in that of
    P3, and P1 is in its own. *)
Theorem subtree_membership :
  (forall db root fuel, isPersonInSubtree fuel db root root = Some (true, []))
  /\ (forall db root target,
        root <> target ->
        exists N b log,
          (forall fuel, N <= fuel ->
                        isPersonInSubtree fuel db root target = Some (b, log))
          /\ (b = true <-> descendant db root target))
  /\ (forall fuel, 2 <= fuel ->
        fst <$> isPersonInSubtree fuel Fixture.threeGenerations "P1" "P4" = Some true)
  /\ (forall fuel, 2 <= fuel ->
        fst <$> isPersonInSubtree fuel Fixture.threeGenerations "P3" "P4" = Some false)
  /\ (forall fuel,
        isPersonInSubtree fuel Fixture.threeGenerations "P1" "P1" = Some (true, [])).
Proof.
  assert (Hsame : forall db root fuel,
             isPersonInSubtree fuel db root root = Some (true, [])).
  { intros db root fuel. unfold isPersonInSubtree.
    rewrite bool_decide_eq_true_2; reflexivity. }
  split; [exact Hsame|]. split; [|split; [|split]].
  - intros db root target Hne.
    destruct (isPersonInSubtree_runs db root target Hne) as (N & b & log & Hrun & Hiff & _).
    exists N, b, log. auto.
  - intros fuel Hfuel.
    destruct (isPersonInSubtree 2 Fixture.threeGenerations "P1" "P4") as [r|] eqn:Hrun;
      [|vm_compute in Hrun; discriminate].
    rewrite (isPersonInSubtree_more_fuel _ _ _ _ _ _ Hrun Hfuel).
    vm_compute in Hrun. injection Hrun as <-. reflexivity.
  - intros fuel Hfuel.
    destruct (isPersonInSubtree 2 Fixture.threeGenerations "P3" "P4") as [r|] eqn:Hrun;
      [|vm_compute in Hrun; discriminate].
    rewrite (isPersonInSubtree_more_fuel _ _ _ _ _ _ Hrun Hfuel).
    vm_compute in Hrun. injection Hrun as <-. reflexivity.
  - intros fuel. apply Hsame.
Qed.

Lemma subtree_membership_witness :
  descendant Fixture.threeGenerations "P1" "P4"
  /\ ~ descendant Fixture.threeGenerations "P3" "P4".
Proof.
  destruct subtree_membership as (_ & Hruns & Hyes & Hno & _). split.
  - destruct (Hruns Fixture.threeGenerations "P1" "P4") as (N & b & log & Hrun & Hiff);
      [discriminate|].
    apply Hiff.
    pose proof (Hyes (N + 2) (Nat.le_add_l 2 N)) as Hb.
    rewrite (Hrun (N + 2) (Nat.le_add_r N 2)) in Hb. simpl in Hb. congruence.
  - destruct (Hruns Fixture.threeGenerations "P3" "P4") as (N & b & log & Hrun & Hiff);
      [discriminate|].
    intros Hdesc%Hiff.
    pose proof (Hno (N + 2) (Nat.le_add_l 2 N)) as Hb.
    rewrite (Hrun (N + 2) (Nat.le_add_r N 2)) in Hb. simpl in Hb. congruence.
Defined.

(** C3.  On every finite families and children data, cyclic or not, with
    persons listed under several families or not, the traversal ends; it
    answers false when no chain of family records leads from the root to
    another target; and it asks for the families of each person at most
    once. *)
Theorem subtree_traversal_terminates (db : Database) (root target : string) :
  exists N b log,
    (forall fuel, N <= fuel -> isPersonInSubtree fuel db root target = Some (b, log))
    /\ (root <> target -> ~ descendant db root target -> b = false)
    /\ NoDup (expanded log).
Proof.
  destruct (decide (root = target)) as [->|Hne].
  - exists 0, true, []. split; [|split].
    + intros fuel _. unfold isPersonInSubtree.
      rewrite bool_decide_eq_true_2; reflexivity.
    + intros Hne. contradiction.
    + apply NoDup_nil_2.
  - destruct (isPersonInSubtree_runs db root target Hne) as (N & b & log & Hrun & Hiff & Hnd).
    exists N, b, log. split; [exact Hrun|]. split; [|exact Hnd].
    intros _ Hno. destruct b; [|reflexivity]. destruct Hno. apply Hiff. reflexivity.
Qed.

Lemma subtree_traversal_terminates_witness :
  descendant Fixture.cyclic "P1" "P1"
  /\ exists N log,
      (forall fuel, N <= fuel ->
                    isPersonInSubtree fuel Fixture.cyclic "P1" "P9" = Some (false, log))
      /\ expanded log = ["P1"; "P2"; "P3"; "P4"]
      /\ NoDup (expanded log).
Proof.
  split.
  - apply tc_l with "P2"; [|apply tc_once].
    + exists {| id := "F1"; father_id := Some "P1"; mother_id := None |},
             {| family_id := "F1"; person_id := "P2" |}.
      simpl. rewrite !elem_of_cons. auto 10.
    + exists {| id := "F2"; father_id := Some "P2"; mother_id := None |},
             {| family_id := "F2"; person_id := "P1" |}.
      simpl. rewrite !elem_of_cons. auto 10.
  - destruct (subtree_traversal_terminates Fixture.cyclic "P1" "P9")
      as (N & b & log & Hrun & _ & Hnd).
    assert (Hten : isPersonInSubtree 10 Fixture.cyclic "P1" "P9"
                   = Some (false,
                           [ Prepare "SELECT id FROM families WHERE father_id = ? OR mother_id = ?";
                             Prepare "SELECT person_id FROM children WHERE family_id = ?";
                             Bind familyStmt ["P1"; "P1"]; Bind childStmt ["F1"];
                             Bind familyStmt ["P2"; "P2"]; Bind childStmt ["F2"];
                             Bind familyStmt ["P3"; "P3"]; Bind familyStmt ["P4"; "P4"];
                             Free familyStmt; Free childStmt ]))
      by (vm_compute; reflexivity).
    apply (isPersonInSubtree_more_fuel _ _ _ _ (N + 10)) in Hten; [|lia].
    rewrite (Hrun (N + 10)) in Hten by lia. injection Hten as -> ->.
    exists N. eexists. split; [exact Hrun|]. split; [reflexivity|exact Hnd].
Defined.

(* --------------------------------------------------------------------- *)
(** ** Further properties of the traversal and of the dispatcher *)
(* --------------------------------------------------------------------- *)

Lemma scanFamilies_log db target visited fids queue log s log' :
  scanFamilies db target visited fids queue log = (s, log') ->
  exists binds, log' = log ++ binds /\ Forall is_bind binds.
Proof.
  revert queue log. induction fids as [|fid rest IH]; intros queue log; simpl.
  - intros [= _ <-]. exists []. rewrite app_nil_r. auto.
  - destruct (scanChildren _ _ _ _) as [|queue1].
    + intros [= _ <-]. eexists. split; [reflexivity|]. repeat constructor.
    + intros (binds & -> & Hbinds)%IH. exists (Bind childStmt [fid] :: binds).
      rewrite <- app_assoc. split; [reflexivity|]. constructor; [exact I|exact Hbinds].
Qed.

Lemma loop_log fuel db target visited queue log b log' :
  loop fuel db target visited queue log = Some (b, log') ->
  exists binds, log' = log ++ binds /\ Forall is_bind binds.
Proof.
  revert visited queue log. induction fuel as [|fuel IH]; intros visited queue log;
    simpl; [discriminate|].
  destruct queue as [|current queue].
  - intros [= _ <-]. exists []. rewrite app_nil_r. auto.
  - case_bool_decide; [apply IH|].
    destruct (scanFamilies _ _ _ _ _ _) as [[|queue'] log1] eqn:Hscan;
      apply scanFamilies_log in Hscan as (binds1 & -> & Hbinds1).
    + intros [= _ <-]. eexists. rewrite <- app_assoc. split; [reflexivity|].
      constructor; [exact I|exact Hbinds1].
    + intros (binds2 & -> & Hbinds2)%IH. eexists. rewrite <- !app_assoc.
      split; [reflexivity|]. constructor; [exact I|]. apply Forall_app. auto.
Qed.

(** X20.  Whatever the traversal answers, and also when it answers in the
    middle of a family, it has prepared its two statements once, bound them
    in between, and freed both at the end. *)
Theorem statements_are_freed (fuel : nat) (db : Database) (root target : string)
    (b : bool) (log : list call) :
  root <> target ->
  isPersonInSubtree fuel db root target = Some (b, log) ->
  exists binds,
    log = [ Prepare "SELECT id FROM families WHERE father_id = ? OR mother_id = ?";
            Prepare "SELECT person_id FROM children WHERE family_id = ?" ]
          ++ binds ++ [Free familyStmt; Free childStmt]
    /\ Forall is_bind binds.
Proof.
  intros Hne. unfold isPersonInSubtree. rewrite (bool_decide_eq_false_2 _ Hne).
  destruct (loop fuel db target ∅ [root] _) as [[b' log1]|] eqn:Hloop; [|discriminate].
  apply loop_log in Hloop as (binds & -> & Hbinds).
  intros [= _ <-]. exists binds. split; [reflexivity|exact Hbinds].
Qed.

Lemma statements_are_freed_witness :
  exists binds,
    [ Prepare "SELECT id FROM families WHERE father_id = ? OR mother_id = ?";
      Prepare "SELECT person_id FROM children WHERE family_id = ?";
      Bind familyStmt ["P1"; "P1"]; Bind childStmt ["F1"];
      Free familyStmt; Free childStmt ]
    = [ Prepare "SELECT id FROM families WHERE father_id = ? OR mother_id = ?";
        Prepare "SELECT person_id FROM children WHERE family_id = ?" ]
      ++ binds ++ [Free familyStmt; Free childStmt]
    /\ Forall is_bind binds.
Proof.
  apply (statements_are_freed 1 Fixture.threeGenerations "P1" "P2" true);
    [discriminate|vm_compute; reflexivity].
Defined.

Lemma invariant_start db root target : invariant db root target ∅ [root].
Proof.
  split; [|split].
  - intros x [[]%elem_of_empty| ->%list_elem_of_singleton]. apply rtc_refl.
  - right. apply list_elem_of_singleton. reflexivity.
  - intros p c []%elem_of_empty.
Qed.

(** The answer of a traversal that ended, whatever its fuel. *)
Lemma isPersonInSubtree_answer fuel db root target b log :
  root <> target ->
  isPersonInSubtree fuel db root target = Some (b, log) ->
  b = true <-> descendant db root target.
Proof.
  intros Hne. unfold isPersonInSubtree. rewrite (bool_decide_eq_false_2 _ Hne).
  destruct (loop fuel db target ∅ [root] _) as [[b' log1]|] eqn:Hloop; [|discriminate].
  intros [= <- _]. eapply loop_answer; [apply invariant_start|exact Hloop].
Qed.

Lemma loop_expanded_reach fuel db root target visited queue log b log' :
  (forall x, x ∈ queue -> rtc (parent_child db) root x) ->
  (forall p, p ∈ expanded log -> rtc (parent_child db) root p) ->
  loop fuel db target visited queue log = Some (b, log') ->
  forall p, p ∈ expanded log' -> rtc (parent_child db) root p.
Proof.
  revert visited queue log. induction fuel as [|fuel IH]; intros visited queue log Hq Hlog;
    simpl; [discriminate|].
  destruct queue as [|current queue].
  - intros [= _ <-]. exact Hlog.
  - assert (Hcur : rtc (parent_child db) root current)
      by (apply Hq, elem_of_cons; auto).
    assert (Hrest : forall x, x ∈ queue -> rtc (parent_child db) root x)
      by (intros x Hx; apply Hq, elem_of_cons; auto).
    case_bool_decide; [apply IH; assumption|].
    assert (Hlog1 : forall p, p ∈ expanded (log ++ [Bind familyStmt [current; current]]) ->
                              rtc (parent_child db) root p).
    { intros p. rewrite expanded_app. simpl.
      intros [?| ->%list_elem_of_singleton]%elem_of_app; auto. }
    destruct (scanFamilies _ _ _ _ _ _) as [[|queue'] log1] eqn:Hscan.
    + intros [= _ <-] p. rewrite (scanFamilies_expanded _ _ _ _ _ _ _ _ Hscan). auto.
    + apply IH.
      * apply scanFamilies_continue in Hscan as [_ Hq'].
        intros x [?|(fid & Hfid & Hc & _)]%Hq'; [auto|].
        eapply rtc_r; [exact Hcur|]. apply parent_child_select. eauto.
      * intros p. rewrite (scanFamilies_expanded _ _ _ _ _ _ _ _ Hscan). auto.
Qed.

(** X21.  The traversal asks for the families of the root and of its
    descendants only: no person outside the subtree is looked up. *)
Theorem only_the_subtree_is_expanded (fuel : nat) (db : Database)
    (root target : string) (b : bool) (log : list call) (p : string) :
  isPersonInSubtree fuel db root target = Some (b, log) ->
  p ∈ expanded log ->
  p = root \/ descendant db root p.
Proof.
  unfold isPersonInSubtree. case_bool_decide.
  - intros [= _ <-] []%elem_of_nil.
  - destruct (loop fuel db target ∅ [root] _) as [[b' log1]|] eqn:Hloop; [|discriminate].
    intros [= _ <-]. rewrite expanded_app. simpl. rewrite app_nil_r. intros Hp.
    assert (Hreach : rtc (parent_child db) root p).
    { eapply loop_expanded_reach; [| |exact Hloop|exact Hp].
      - intros x ->%list_elem_of_singleton. apply rtc_refl.
      - intros q []%elem_of_nil. }
    apply rtc_tc in Hreach as [->|?]; auto.
Qed.

Lemma only_the_subtree_is_expanded_witness :
  "P2" = "P1" \/ descendant Fixture.cyclic "P1" "P2".
Proof.
  apply (only_the_subtree_is_expanded 10 Fixture.cyclic "P1" "P9" false
           [ Prepare "SELECT id FROM families WHERE father_id = ? OR mother_id = ?";
             Prepare "SELECT person_id FROM children WHERE family_id = ?";
             Bind familyStmt ["P1"; "P1"]; Bind childStmt ["F1"];
             Bind familyStmt ["P2"; "P2"]; Bind childStmt ["F2"];
             Bind familyStmt ["P3"; "P3"]; Bind familyStmt ["P4"; "P4"];
             Free familyStmt; Free childStmt ] "P2").
  - vm_compute. reflexivity.
  - apply (bool_decide_unpack _). vm_compute. exact I.
Defined.

Lemma closed_reach db root target (visited : gset string) p :
  invariant db root target visited [] ->
  rtc (parent_child db) root p -> p ∈ visited.
Proof.
  intros (_ & [Hroot|[]%elem_of_nil] & Hclosed). revert p.
  apply rtc_ind_r; [exact Hroot|]. intros y z _ Hyz IH.
  destruct (Hclosed y z IH Hyz) as [_ [?|[]%elem_of_nil]]. assumption.
Qed.

Lemma loop_explores fuel db root target visited queue log log' :
  invariant db root target visited queue ->
  (forall p, p ∈ visited -> p ∈ expanded log) ->
  loop fuel db target visited queue log = Some (false, log') ->
  forall p, rtc (parent_child db) root p -> p ∈ expanded log'.
Proof.
  revert visited queue log. induction fuel as [|fuel IH]; intros visited queue log Hinv Hvis;
    simpl; [discriminate|].
  destruct queue as [|current queue].
  - intros [= <-] p Hp. apply Hvis. eapply closed_reach; eassumption.
  - case_bool_decide as Hcur.
    + apply IH; [|exact Hvis]. eapply invariant_skip; eassumption.
    + destruct (scanFamilies _ _ _ _ _ _) as [[|queue'] log1] eqn:Hscan; [discriminate|].
      apply IH.
      * eapply invariant_expand; eassumption.
      * intros p. rewrite (scanFamilies_expanded _ _ _ _ _ _ _ _ Hscan), expanded_app.
        simpl. intros [->%elem_of_singleton|Hp]%elem_of_union; apply elem_of_app.
        -- right. apply list_elem_of_singleton. reflexivity.
        -- left. auto.
Qed.

(** X22.  A traversal that answers false has asked for the families of
    the root and of every descendant of the root: it gives up only after
    the whole subtree. *)
Theorem false_after_the_whole_subtree (fuel : nat) (db : Database)
    (root target : string) (log : list call) (p : string) :
  isPersonInSubtree fuel db root target = Some (false, log) ->
  p = root \/ descendant db root p ->
  p ∈ expanded log.
Proof.
  unfold isPersonInSubtree. case_bool_decide; [discriminate|].
  destruct (loop fuel db target ∅ [root] _) as [[b' log1]|] eqn:Hloop; [|discriminate].
  intros [= -> <-] Hp. rewrite expanded_app. simpl. rewrite app_nil_r.
  eapply loop_explores; [apply invariant_start| |exact Hloop|].
  - intros q []%elem_of_empty.
  - apply rtc_tc. destruct Hp as [->|Hp]; [left; reflexivity|right; exact Hp].
Qed.

Lemma false_after_the_whole_subtree_witness :
  "P4" ∈ expanded
    [ Prepare "SELECT id FROM families WHERE father_id = ? OR mother_id = ?";
      Prepare "SELECT person_id FROM children WHERE family_id = ?";
      Bind familyStmt ["P1"; "P1"]; Bind childStmt ["F1"];
      Bind familyStmt ["P2"; "P2"]; Bind childStmt ["F2"];
      Bind familyStmt ["P3"; "P3"]; Bind familyStmt ["P4"; "P4"];
      Free familyStmt; Free childStmt ].
Proof.
  apply (false_after_the_whole_subtree 10 Fixture.threeGenerations "P1" "P9").
  - vm_compute. reflexivity.
  - right. destruct (isPersonInSubtree_answer 2 Fixture.threeGenerations "P1" "P4" true
                       [ Prepare "SELECT id FROM families WHERE father_id = ? OR mother_id = ?";
                         Prepare "SELECT person_id FROM children WHERE family_id = ?";
                         Bind familyStmt ["P1"; "P1"]; Bind childStmt ["F1"];
                         Bind familyStmt ["P2"; "P2"]; Bind childStmt ["F2"];
                         Free familyStmt; Free childStmt ]) as [Hdesc _];
      [discriminate|vm_compute; reflexivity|].
    apply Hdesc. reflexivity.
Defined.

Lemma descendant_same_rows db db' root target :
  (forall f, f ∈ families db -> f ∈ families db') ->
  (forall c, c ∈ children db -> c ∈ children db') ->
  descendant db root target -> descendant db' root target.
Proof.
  intros Hf Hc. unfold descendant.
  assert (Hstep : forall x y, parent_child db x y -> parent_child db' x y).
  { intros x y (f & c & ? & ? & ?). exists f, c. auto. }
  induction 1 as [x y Hxy|x y z Hxy _ IH].
  - apply tc_once. auto.
  - eapply tc_l; [apply Hstep, Hxy|exact IH].
Qed.

(** X23.  The answer depends on which rows the two relations hold, not on
    the order in which the engine yields them nor on rows yielded twice:
    two databases with the same rows give the same answer, when both
    traversals end. *)
Theorem answer_ignores_row_order (fuel fuel' : nat) (db db' : Database)
    (root target : string) :
  (forall f, f ∈ families db <-> f ∈ families db') ->
  (forall c, c ∈ children db <-> c ∈ children db') ->
  is_Some (isPersonInSubtree fuel db root target) ->
  is_Some (isPersonInSubtree fuel' db' root target) ->
  fst <$> isPersonInSubtree fuel db root target
  = fst <$> isPersonInSubtree fuel' db' root target.
Proof.
  intros Hf Hc [[b log] Hrun] [[b' log'] Hrun']. rewrite Hrun, Hrun'. simpl. f_equal.
  destruct (decide (root = target)) as [->|Hne].
  - unfold isPersonInSubtree in *.
    rewrite bool_decide_eq_true_2 in Hrun, Hrun' by reflexivity. congruence.
  - pose proof (isPersonInSubtree_answer _ _ _ _ _ _ Hne Hrun) as Hb.
    pose proof (isPersonInSubtree_answer _ _ _ _ _ _ Hne Hrun') as Hb'.
    assert (Hsame : descendant db root target <-> descendant db' root target).
    { split; apply descendant_same_rows; intros ?; try apply Hf; apply Hc. }
    destruct b, b'; try reflexivity.
    + symmetry. apply Hb', Hsame, Hb. reflexivity.
    + apply Hb, Hsame, Hb'. reflexivity.
Qed.

Lemma answer_ignores_row_order_witness :
  fst <$> isPersonInSubtree 5 Fixture.threeGenerations "P1" "P4"
  = fst <$> isPersonInSubtree 7
      {| families := reverse (families Fixture.threeGenerations);
         children := children Fixture.threeGenerations
                     ++ reverse (children Fixture.threeGenerations) |}
      "P1" "P4".
Proof.
  apply answer_ignores_row_order.
  - intros f. cbn [families]. rewrite elem_of_reverse. reflexivity.
  - intros c. cbn [children]. rewrite elem_of_app, elem_of_reverse. tauto.
  - vm_compute. eexists. reflexivity.
  - vm_compute. eexists. reflexivity.
Defined.

(** X24.  What the dispatcher refuses, it refuses before the engine: a
    function name it does not know, and a subtree request whose root or
    target is missing or empty, give null data and their error with no call
    on the connection, whatever the fuel; and no result carries an error
    after a call was made. *)
Theorem handleRpc_refuses_before_the_engine (fuel : nat) (db : Database)
    (functionName : string) (params : list (string * string)) :
  (functionName <> "is_person_in_subtree" ->
     handleRpc fuel db functionName params
     = Some ({| QueryBuilder.data := Js.VNull;
                QueryBuilder.error :=
                  Some {| QueryBuilder.message :=
                            "Unknown RPC function: " +:+ functionName;
                          QueryBuilder.code := None |} |}, []))
  /\ (functionName = "is_person_in_subtree" ->
      QueryBuilder.truthy_str (param "root_id" params) = false
      \/ QueryBuilder.truthy_str (param "target_id" params) = false ->
      handleRpc fuel db functionName params
      = Some ({| QueryBuilder.data := Js.VNull;
                 QueryBuilder.error :=
                   Some {| QueryBuilder.message := "Missing root_id or target_id";
                           QueryBuilder.code := None |} |}, []))
  /\ (forall r log,
        handleRpc fuel db functionName params = Some (r, log) ->
        QueryBuilder.error r <> None ->
        log = [] /\ QueryBuilder.data r = Js.VNull).
Proof.
  unfold handleRpc. split; [|split].
  - intros Hname. apply String.eqb_neq in Hname. rewrite Hname. reflexivity.
  - intros -> Hmissing. simpl.
    destruct Hmissing as [-> | ->]; rewrite ?orb_true_r; reflexivity.
  - intros r log Hrun Herr. repeat case_match; simplify_eq; auto.
Qed.

Lemma handleRpc_refuses_before_the_engine_witness :
  handleRpc 0 Fixture.threeGenerations "get_tree" [("root_id", "P1")]
  = Some ({| QueryBuilder.data := Js.VNull;
             QueryBuilder.error :=
               Some {| QueryBuilder.message := "Unknown RPC function: get_tree";
                       QueryBuilder.code := None |} |}, [])
  /\ handleRpc 0 Fixture.threeGenerations "is_person_in_subtree"
       [("root_id", "P1"); ("target_id", "")]
     = Some ({| QueryBuilder.data := Js.VNull;
                QueryBuilder.error :=
                  Some {| QueryBuilder.message := "Missing root_id or target_id";
                          QueryBuilder.code := None |} |}, []).
Proof.
  split.
  - apply (handleRpc_refuses_before_the_engine 0 Fixture.threeGenerations "get_tree"
             [("root_id", "P1")]). discriminate.
  - apply (handleRpc_refuses_before_the_engine 0 Fixture.threeGenerations
             "is_person_in_subtree" [("root_id", "P1"); ("target_id", "")]).
    + reflexivity.
    + right. reflexivity.
Defined.

(** X25.  On an engine that answers every statement of the traversal, a
    subtree request with a root and a target ends, whatever the graph, and
    the dispatcher returns a boolean that is true exactly when the target
    is the root or one of its descendants.  (A failure of the engine is
    not handled by the dispatcher: it escapes as an exception.) *)
Theorem handleRpc_answers (db : Database) (params : list (string * string))
    (root target : string) :
  param "root_id" params = Some root -> root <> "" ->
  param "target_id" params = Some target -> target <> "" ->
  exists N b log,
    (forall fuel, N <= fuel ->
                  handleRpc fuel db "is_person_in_subtree" params
                  = Some ({| QueryBuilder.data := Js.VBool b;
                             QueryBuilder.error := None |}, log))
    /\ (b = true <-> root = target \/ descendant db root target).
Proof.
  intros Hroot Hr Htarget Ht.
  assert (Htruthy : forall s, s <> "" -> QueryBuilder.truthy_str (Some s) = true)
    by (intros [|? ?] Hs; [contradiction|reflexivity]).
  assert (Hrun : forall fuel,
             handleRpc fuel db "is_person_in_subtree" params
             = match isPersonInSubtree fuel db root target with
               | Some (result, log) =>
                   Some ({| QueryBuilder.data := Js.VBool result;
                            QueryBuilder.error := None |}, log)
               | None => None
               end).
  { intros fuel. unfold handleRpc. simpl.
    rewrite Hroot, Htarget, (Htruthy _ Hr), (Htruthy _ Ht). reflexivity. }
  destruct (decide (root = target)) as [->|Hne].
  - exists 0, true, []. split; [|tauto].
    intros fuel _. rewrite Hrun. unfold isPersonInSubtree.
    rewrite bool_decide_eq_true_2; reflexivity.
  - destruct (isPersonInSubtree_runs db root target Hne) as (N & b & log & HN & Hiff & _).
    exists N, b, log. split.
    + intros fuel Hfuel. rewrite Hrun, (HN fuel Hfuel). reflexivity.
    + rewrite Hiff. tauto.
Qed.

Lemma handleRpc_answers_witness :
  exists N b log,
    (forall fuel, N <= fuel ->
                  handleRpc fuel Fixture.cyclic "is_person_in_subtree"
                    [("target_id", "P1"); ("root_id", "P4")]
                  = Some ({| QueryBuilder.data := Js.VBool b;
                             QueryBuilder.error := None |}, log))
    /\ (b = true <-> "P4" = "P1" \/ descendant Fixture.cyclic "P4" "P1").
Proof.
  apply (handleRpc_answers Fixture.cyclic [("target_id", "P1"); ("root_id", "P4")]
           "P4" "P1"); (reflexivity || discriminate).
Defined.

End SubtreeProps.

(* ===================================================================== *)
(** * Properties of the display helpers *)
(* ===================================================================== *)

Module DisplayProps.
Import Js ClanConfig Documents Vocabulary.

Lemma startsWith_app (name rest : string) : startsWith name (name +:+ rest) = true.
Proof.
  induction name as [|a name IH]; [reflexivity|].
  change (String a name +:+ rest) with (String a (name +:+ rest)). simpl.
  rewrite Ascii.eqb_refl, IH. reflexivity.
Qed.

Lemma slice_app (name rest : string) :
  slice (String.length name) (name +:+ rest) = rest.
Proof.
  induction name as [|a name IH]; [destruct rest; reflexivity|].
  change (String a name +:+ rest) with (String a (name +:+ rest)). simpl. exact IH.
Qed.

(** X26.  The subtitle is what follows the short name in the full name,
    without the white space around it; and a short name set on its own, of
    which the built-in full name is no continuation, leaves the subtitle
    empty. *)
Theorem subtitle_is_the_rest_of_the_full_name (name rest : string) :
  name <> "" ->
  CLAN_SUBTITLE (Some name) (Some (name +:+ rest)) = trim rest
  /\ (startsWith name (CLAN_FULL_NAME None) = false ->
      CLAN_SUBTITLE (Some name) None = "").
Proof.
  intros Hname. destruct name as [|a name]; [contradiction|].
  unfold CLAN_SUBTITLE, CLAN_NAME, CLAN_FULL_NAME. split.
  - change (String a name +:+ rest) with (String a (name +:+ rest)).
    cbn [or_else].
    change (String a (name +:+ rest)) with (String a name +:+ rest).
    rewrite startsWith_app, slice_app. reflexivity.
  - cbn [or_else]. intros ->. reflexivity.
Qed.

Lemma subtitle_is_the_rest_of_the_full_name_witness :
  CLAN_SUBTITLE (Some "Ho Le") (Some ("Ho Le" +:+ "  Lang Chua ")) = "Lang Chua"
  /\ CLAN_SUBTITLE (Some "Ho Le") None = "".
Proof.
  destruct (subtitle_is_the_rest_of_the_full_name "Ho Le" "  Lang Chua ")
    as [Hrest Hdefault]; [discriminate|].
  split; [rewrite Hrest; reflexivity|apply Hdefault; reflexivity].
Defined.

(** X27.  The size shown for a file: nothing for an absent or zero size;
    from 1024 bytes up to 1024 * 1024 a whole number of KB between 1 and
    1024, within half a KB of the size (so that the last 512 bytes before
    1024 * 1024 show as 1024 KB); from there on, for a size below 2^53
    bytes, a number of MB with one decimal, within a twentieth of a MB of
    the size. *)
Theorem file_size_is_rounded_to_the_nearest (bytes : Z) :
  (formatFileSize None = "" /\ formatFileSize (Some 0%Z) = "")
  /\ (1024 <= bytes < 1048576 ->
      exists n,
        formatFileSize (Some bytes) = num_to_string n +:+ " KB"
        /\ 1 <= n <= 1024 /\ -512 <= bytes - 1024 * n < 512)%Z
  /\ (1048576 <= bytes < 2 ^ 53 ->
      exists n,
        formatFileSize (Some bytes)
        = (num_to_string (n / 10) +:+ "." +:+ num_to_string (n mod 10)) +:+ " MB"
        /\ 10 <= n /\ -524288 <= 10 * bytes - 1048576 * n < 524288)%Z.
Proof.
  split; [split; reflexivity|]. split.
  - intros [Hlo Hhi]. exists ((bytes + 512) / 1024)%Z.
    pose proof (Z.mul_div_le (bytes + 512) 1024 eq_refl) as Hle.
    pose proof (Z.mul_succ_div_gt (bytes + 512) 1024 eq_refl) as Hgt.
    split; [|lia].
    unfold formatFileSize, truthy.
    destruct (Z.eqb_spec bytes 0); [lia|]. simpl.
    destruct (Z.ltb_spec bytes 1024); [lia|].
    destruct (Z.ltb_spec bytes (1024 * 1024)); [reflexivity|lia].
  - intros [Hlo _]. exists ((10 * bytes + 524288) / 1048576)%Z.
    pose proof (Z.mul_div_le (10 * bytes + 524288) 1048576 eq_refl) as Hle.
    pose proof (Z.mul_succ_div_gt (10 * bytes + 524288) 1048576 eq_refl) as Hgt.
    split; [|lia].
    unfold formatFileSize, truthy.
    destruct (Z.eqb_spec bytes 0); [lia|]. simpl.
    destruct (Z.ltb_spec bytes 1024); [lia|].
    destruct (Z.ltb_spec bytes (1024 * 1024)); [lia|reflexivity].
Qed.

Lemma file_size_is_rounded_to_the_nearest_witness :
  (exists n,
      (formatFileSize (Some 1048575%Z) = num_to_string n +:+ " KB"
       /\ 1 <= n <= 1024 /\ -512 <= 1048575 - 1024 * n < 512)%Z)
  /\ (exists n,
        (formatFileSize (Some 1625293%Z)
         = (num_to_string (n / 10) +:+ "." +:+ num_to_string (n mod 10)) +:+ " MB"
         /\ 10 <= n /\ -524288 <= 10 * 1625293 - 1048576 * n < 524288)%Z)
  /\ formatFileSize (Some 1625293%Z) = "1.6 MB".
Proof.
  split; [|split].
  - apply (file_size_is_rounded_to_the_nearest 1048575). lia.
  - apply (file_size_is_rounded_to_the_nearest 1625293). lia.
  - reflexivity.
Defined.

End DisplayProps.
